(** * GLWebViewState: the frame-compositing core of the tiled web view

    A shallow embedding of
    [Source/WebCore/platform/graphics/android/GLWebViewState.cpp]
    and the properties its design description states about it.

    Conventions of the embedding.
    - C++ [int] values are integers of [Z].  The [int] arithmetic of
      [setViewport] (the tile counts and the texture budget) and its casts
      from [float] are taken at 32 bits, with the wrap-around written out in
      [Int32]; the rectangle classes, which are not under src/, carry no
      bound.  The [unsigned int] picture counter wraps modulo 2^32, written
      out in [next_picture_counter].
    - C++ [float] values are IEEE binary32 numbers, [double] values binary64
      numbers, both carried by [spec_float] with the operations of
      [SpecFloat] at the matching precision.
    - Pointers are addresses ([positive]); a pointer that may be null is an
      [option].
    - Calls into collaborators whose effect stays with the collaborator
      (the tiled pages, the layers, the texture manager, GL) are appended to
      a log of events, in call order. *)

From Stdlib Require Import ZArith Bool List Lia.
From Stdlib Require Import Floats.SpecFloat.
From stdpp Require Import base gmap list.

Local Open Scope Z_scope.

(* ===================================================================== *)
(** ** 32-bit integers *)
(* ===================================================================== *)

(** The [int] of the platform: 32 bits in two's complement.  C++ leaves
    signed overflow undefined; the compiled code keeps the low 32 bits of
    the result, and that is what [wrap] does. *)
Module Int32.

Definition min_int : Z := - 2 ^ 31.
Definition max_int : Z := 2 ^ 31 - 1.

Definition fits (z : Z) : bool := (min_int <=? z) && (z <=? max_int).

Definition wrap (z : Z) : Z := (z + 2 ^ 31) mod 2 ^ 32 - 2 ^ 31.

Definition add (a b : Z) : Z := wrap (a + b).
Definition mul (a b : Z) : Z := wrap (a * b).

End Int32.

(* ===================================================================== *)
(** ** Floating point *)
(* ===================================================================== *)

Module F32.

Definition prec : Z := 24.
Definition emax : Z := 128.

Definition float := spec_float.

Definition add : float -> float -> float := SFadd prec emax.
Definition sub : float -> float -> float := SFsub prec emax.
Definition mul : float -> float -> float := SFmul prec emax.
Definition div : float -> float -> float := SFdiv prec emax.

Definition eqb : float -> float -> bool := SFeqb.
Definition ltb : float -> float -> bool := SFltb.
Definition leb : float -> float -> bool := SFleb.

(** Conversion of an [int] to [float] (round to nearest, ties to even). *)
Definition of_int (z : Z) : float := binary_normalize prec emax z 0 false.

(** The integer [m * 2^e] rounded toward minus infinity. *)
Definition scaled_floor (m e : Z) : Z :=
  match e with
  | Zneg p => Z.shiftr m (Zpos p)
  | _ => Z.shiftl m e
  end.

(** [static_cast<int>] of a [float] that holds the integer [z].  C++ leaves
    the cast undefined when [z] is not in the range of [int], and for an
    infinity or a NaN; the conversion instruction the compiler emits
    (cvttss2si) then leaves [INT_MIN], and the model follows it. *)
Definition cast_int (z : Z) : Z := if Int32.fits z then z else Int32.min_int.

(** [static_cast<int>(floorf(x))]. *)
Definition floor_to_int (x : float) : Z :=
  match x with
  | S754_finite s m e => cast_int (scaled_floor (cond_Zopp s (Zpos m)) e)
  | S754_zero _ => 0
  | _ => Int32.min_int
  end.

(** [static_cast<int>(ceilf(x))]. *)
Definition ceil_to_int (x : float) : Z :=
  match x with
  | S754_finite s m e => cast_int (- scaled_floor (cond_Zopp (negb s) (Zpos m)) e)
  | S754_zero _ => 0
  | _ => Int32.min_int
  end.

(** The implicit conversion of a [float] to [int]: truncation toward 0. *)
Definition to_int (x : float) : Z :=
  match x with
  | S754_finite false m e => scaled_floor (Zpos m) e
  | S754_finite true m e => - scaled_floor (Zpos m) e
  | _ => 0
  end.

(** A finite [float] in its canonical form: the mantissa and the exponent
    of a binary32 number. *)
Definition valid (m : positive) (e : Z) : bool := bounded prec emax m e.

(** The value of a finite [float], counted in units of 2^-149, the smallest
    positive [float]. *)
Definition units (x : float) : Z :=
  match x with
  | S754_finite s m e => cond_Zopp s (Zpos m) * 2 ^ (e + 149)
  | _ => 0
  end.

(** The promotion of a [float] to [double]; it is exact. *)
Definition to_double (x : float) : spec_float :=
  match x with
  | S754_finite s m e => binary_round 53 1024 s m e
  | _ => x
  end.

End F32.

Abbreviation float := F32.float.

(* ===================================================================== *)
(** ** Rectangles *)
(* ===================================================================== *)

(** Modelled from the spec: [IntRect] (platform/graphics/IntRect.h and
    IntRect.cpp are not under src/).  A rectangle is a location and a size;
    it is empty when its width or its height is not positive; [unite]
    ignores an empty argument, adopts the argument when the receiver is
    empty, and otherwise extends the receiver to the smallest rectangle
    enclosing both; [inflate] moves every edge outward by the margin;
    [intersects] holds for two non-empty rectangles that overlap. *)
Module IntRect.

Record t := mk { x : Z; y : Z; width : Z; height : Z }.

Definition maxX (r : t) : Z := x r + width r.
Definition maxY (r : t) : Z := y r + height r.

Definition isEmpty (r : t) : bool := (width r <=? 0) || (height r <=? 0).

Definition eqb (a b : t) : bool :=
  (x a =? x b) && (y a =? y b) && (width a =? width b) && (height a =? height b).

Definition unite (r other : t) : t :=
  if isEmpty other then r
  else if isEmpty r then other
  else
    let l := Z.min (x r) (x other) in
    let t := Z.min (y r) (y other) in
    let rt := Z.max (maxX r) (maxX other) in
    let b := Z.max (maxY r) (maxY other) in
    mk l t (rt - l) (b - t).

Definition inflate (d : Z) (r : t) : t :=
  mk (x r - d) (y r - d) (width r + d + d) (height r + d + d).

Definition intersects (r other : t) : bool :=
  negb (isEmpty r) && negb (isEmpty other)
  && (x r <? maxX other) && (x other <? maxX r)
  && (y r <? maxY other) && (y other <? maxY r).

(** The pixels of a rectangle, and enclosure of one rectangle by another. *)
Definition contains (r : t) (px py : Z) : Prop :=
  x r <= px < maxX r /\ y r <= py < maxY r.

Definition encloses (outer inner : t) : Prop :=
  forall px py, contains inner px py -> contains outer px py.

End IntRect.

Abbreviation IntRect := IntRect.t.

(** Modelled from the spec: [FloatRect] (platform/graphics/FloatRect.h is
    not under src/): a location and a size in [float]; [inflate] moves every
    edge outward by the margin. *)
Module FloatRect.

Record t := mk { x : float; y : float; width : float; height : float }.

Definition inflate (d : float) (r : t) : t :=
  mk (F32.sub (x r) d) (F32.sub (y r) d)
     (F32.add (F32.add (width r) d) d) (F32.add (F32.add (height r) d) d).

(** [IntRect(r.x(), r.y(), r.width(), r.height())]: every field converted
    to [int]. *)
Definition to_IntRect (r : t) : IntRect :=
  IntRect.mk (F32.to_int (x r)) (F32.to_int (y r))
             (F32.to_int (width r)) (F32.to_int (height r)).

End FloatRect.

Abbreviation FloatRect := FloatRect.t.

(** Skia's rectangles, by their four edges. *)
Module SkRect.

Record t := mk { fLeft : float; fTop : float; fRight : float; fBottom : float }.

Definition width (r : t) : float := F32.sub (fRight r) (fLeft r).
Definition height (r : t) : float := F32.sub (fBottom r) (fTop r).

Definition empty : t :=
  mk (S754_zero false) (S754_zero false) (S754_zero false) (S754_zero false).

End SkRect.

Abbreviation SkRect := SkRect.t.

Module SkIRect.

Record t := mk { fLeft : Z; fTop : Z; fRight : Z; fBottom : Z }.

Definition width (r : t) : Z := fRight r - fLeft r.
Definition height (r : t) : Z := fBottom r - fTop r.
Definition isEmpty (r : t) : bool := (fRight r <=? fLeft r) || (fBottom r <=? fTop r).
Definition empty : t := mk 0 0 0 0.

Definition contains (r : t) (px py : Z) : Prop :=
  fLeft r <= px < fRight r /\ fTop r <= py < fBottom r.

(** [IntRect ir(r.fLeft, r.fTop, r.width(), r.height())]. *)
Definition to_IntRect (r : t) : IntRect :=
  IntRect.mk (fLeft r) (fTop r) (width r) (height r).

End SkIRect.

Abbreviation SkIRect := SkIRect.t.

(* ===================================================================== *)
(** ** Collaborators *)
(* ===================================================================== *)

(** Addresses of heap objects (tiled pages, layers, pictures). *)
Abbreviation ptr := positive.

(** [WebCore::Color] and [SkColor]: a packed ARGB value. *)
Abbreviation Color := Z.
Definition SK_ColorWHITE : Color := 0xFFFFFFFF.

(** The objects of other libraries and of files outside src/ that this file
    holds by value, with the part of their interface it calls.

    - [SkRegion] is Skia's region.  Its iterator yields non-empty
      rectangles that cover exactly the region; a union with a rectangle
      adds that rectangle's pixels.  [skrect_equal] is [SkRect]'s [==].
    - [ZoomManager] is the zoom/scale collaborator.  [zm_processNewScale]
      receives what it reads from this object (the viewport tile bounds and
      the pre-zoom bounds) and returns what it writes back through
      [setPreZoomBounds] and [setFutureViewport].
    - [ShaderProgram] is the shader pipeline. *)
Class Foreign := {
  SkRegion : Type;
  rgn_empty : SkRegion;
  rgn_isEmpty : SkRegion -> bool;
  rgn_setRect : SkIRect -> SkRegion;
  rgn_union : SkRegion -> SkIRect -> SkRegion;
  rgn_getBounds : SkRegion -> SkIRect;
  rgn_rects : SkRegion -> list SkIRect;
  rgn_rects_empty : rgn_rects rgn_empty = [];
  rgn_rects_nonempty : forall g r, In r (rgn_rects g) -> SkIRect.isEmpty r = false;
  rgn_rects_union : forall g r px py,
    (exists q, In q (rgn_rects (rgn_union g r)) /\ SkIRect.contains q px py) <->
    (exists q, In q (rgn_rects g) /\ SkIRect.contains q px py) \/ SkIRect.contains r px py;

  skrect_equal : SkRect -> SkRect -> bool;

  ZoomManager : Type;
  zm_currentScale : ZoomManager -> float;
  zm_futureScale : ZoomManager -> float;
  zm_swapPages : ZoomManager -> ZoomManager;
  zm_processNewScale :
    spec_float -> float -> SkIRect -> SkIRect -> SkIRect -> ZoomManager ->
    ZoomManager * SkIRect * SkIRect;

  ShaderProgram : Type;
  sh_program : ShaderProgram -> Z;
  sh_init : ShaderProgram -> ShaderProgram;
  sh_setViewRect : IntRect -> ShaderProgram -> ShaderProgram;
  sh_setViewport : SkRect -> ShaderProgram -> ShaderProgram;
  sh_setWebViewRect : IntRect -> ShaderProgram -> ShaderProgram;
  sh_setTitleBarHeight : Z -> ShaderProgram -> ShaderProgram;
  sh_setScreenClip : IntRect -> ShaderProgram -> ShaderProgram;
  sh_rectInInvScreenCoord : ShaderProgram -> IntRect -> FloatRect;
}.

(** The pixels of a region: those of the rectangles its iterator yields. *)
Definition rgn_contains `{Foreign} (g : SkRegion) (px py : Z) : Prop :=
  exists q, In q (rgn_rects g) /\ SkIRect.contains q px py.

(** Calls whose effect stays inside the collaborator. *)
Inductive Event :=
| TiledPage_discardTextures (page : ptr)
| TiledPage_invalidateRect (page : ptr) (r : IntRect) (pictureCount : Z)
| TiledPage_updateBaseTileSize (page : ptr)
| BaseLayer_swapExtra (old new : ptr)
| BaseLayer_setGLWebViewState (layer : ptr)
| BaseLayer_setExtra (layer picture : ptr)
| BaseLayer_drawCanvas (layer canvas : ptr)
| TilesManager_setShowVisualIndicator (show : bool)
| TilesManager_setMaxTextureCount (n : Z)
| TilesManager_incDrawGLCount
| TilesManager_gatherLayerTextures
| TilesManager_swapLayersTextures (old new : option ptr)
| TransferQueue_updateDirtyBaseTiles
| Profiler_nextInval (r : IntRect) (scale : float)
| Profiler_nextFrame (l t r b scale : float)
| Log_scaleBeforeUpdate (scale : float)
| Log_scaleAfterUpdate (scale : float)
| GL_clearColor (background : Color) (inverted : bool)
| GL_clear
| GL_viewport (left top width height : Z)
| GL_bindBuffer
| Shader_resetBlending
| Shader_clip (r : FloatRect)
| Shader_drawQuad (r : SkRect) (texture : Z).

Section Model.

Context `{Foreign}.

(** The members of [GLWebViewState] that the methods below read or write,
    followed by the state around it: the two flags of the [TilesManager]
    singleton that [drawGL] reads, the shader, the reference counts of the
    layers, and the log of calls.  The locks ([m_baseLayerLock],
    [m_tiledPageLock]) have no state here: the methods run one at a time. *)
Record World := mkWorld {
  m_zoomManager : ZoomManager;
  m_baseLayer : option ptr;
  m_currentBaseLayer : option ptr;
  m_previouslyUsedRoot : option ptr;
  m_currentPictureCounter : Z;
  m_usePageA : bool;
  m_frameworkInval : IntRect;
  m_frameworkLayersInval : IntRect;
  m_baseLayerUpdate : bool;
  m_backgroundColor : Color;
  m_displayRings : bool;
  m_rings : SkRegion;
  m_ringsIsPressed : bool;
  m_ringsIsButton : bool;
  m_focusRingTexture : Z;
  m_goingDown : bool;
  m_goingLeft : bool;
  m_expandedTileBoundsX : Z;
  m_expandedTileBoundsY : Z;
  m_viewport : SkRect;
  m_viewportTileBounds : SkIRect;
  m_futureViewportTileBounds : SkIRect;
  m_preZoomBounds : SkIRect;
  m_invalidateRegion : SkRegion;
  m_lastInval : IntRect;
  m_tiledPageA : ptr;
  m_tiledPageB : ptr;
  tm_invertedScreen : bool;
  tm_invertedScreenSwitch : bool;
  shader : ShaderProgram;
  refcount : gmap ptr Z;
  events : list Event
}.

(** A world rebuilt from its own fields; the setters are cut out of it. *)
Definition rebuild (w : World) : World :=
  mkWorld (m_zoomManager w) (m_baseLayer w) (m_currentBaseLayer w)
    (m_previouslyUsedRoot w) (m_currentPictureCounter w) (m_usePageA w)
    (m_frameworkInval w) (m_frameworkLayersInval w) (m_baseLayerUpdate w)
    (m_backgroundColor w) (m_displayRings w) (m_rings w) (m_ringsIsPressed w)
    (m_ringsIsButton w) (m_focusRingTexture w) (m_goingDown w) (m_goingLeft w)
    (m_expandedTileBoundsX w) (m_expandedTileBoundsY w) (m_viewport w)
    (m_viewportTileBounds w) (m_futureViewportTileBounds w) (m_preZoomBounds w)
    (m_invalidateRegion w) (m_lastInval w) (m_tiledPageA w) (m_tiledPageB w)
    (tm_invertedScreen w) (tm_invertedScreenSwitch w) (shader w) (refcount w)
    (events w).

(** [assign field]: the function that stores a value in [field] and keeps
    every other field. *)
Ltac assign field :=
  let v := fresh "v" in
  let w := fresh "w" in
  intros v w;
  let body := eval cbv beta delta [rebuild] in (rebuild w) in
  match eval pattern (field w) in body with
  | ?f _ => let r := eval cbv beta in (f v) in exact r
  end.

Definition set_m_zoomManager : ZoomManager -> World -> World := ltac:(assign m_zoomManager).
Definition set_m_baseLayer : option ptr -> World -> World := ltac:(assign m_baseLayer).
Definition set_m_currentBaseLayer : option ptr -> World -> World := ltac:(assign m_currentBaseLayer).
Definition set_m_previouslyUsedRoot : option ptr -> World -> World := ltac:(assign m_previouslyUsedRoot).
Definition set_m_currentPictureCounter : Z -> World -> World := ltac:(assign m_currentPictureCounter).
Definition set_m_usePageA : bool -> World -> World := ltac:(assign m_usePageA).
Definition set_m_frameworkInval : IntRect -> World -> World := ltac:(assign m_frameworkInval).
Definition set_m_frameworkLayersInval : IntRect -> World -> World := ltac:(assign m_frameworkLayersInval).
Definition set_m_baseLayerUpdate : bool -> World -> World := ltac:(assign m_baseLayerUpdate).
Definition set_m_backgroundColor : Color -> World -> World := ltac:(assign m_backgroundColor).
Definition set_m_displayRings : bool -> World -> World := ltac:(assign m_displayRings).
Definition set_m_rings : SkRegion -> World -> World := ltac:(assign m_rings).
Definition set_m_ringsIsPressed : bool -> World -> World := ltac:(assign m_ringsIsPressed).
Definition set_m_ringsIsButton : bool -> World -> World := ltac:(assign m_ringsIsButton).
Definition set_m_focusRingTexture : Z -> World -> World := ltac:(assign m_focusRingTexture).
Definition set_m_goingDown : bool -> World -> World := ltac:(assign m_goingDown).
Definition set_m_goingLeft : bool -> World -> World := ltac:(assign m_goingLeft).
Definition set_m_expandedTileBoundsX : Z -> World -> World := ltac:(assign m_expandedTileBoundsX).
Definition set_m_expandedTileBoundsY : Z -> World -> World := ltac:(assign m_expandedTileBoundsY).
Definition set_m_viewport : SkRect -> World -> World := ltac:(assign m_viewport).
Definition set_m_viewportTileBounds : SkIRect -> World -> World := ltac:(assign m_viewportTileBounds).
Definition set_m_futureViewportTileBounds : SkIRect -> World -> World := ltac:(assign m_futureViewportTileBounds).
Definition set_m_preZoomBounds : SkIRect -> World -> World := ltac:(assign m_preZoomBounds).
Definition set_m_invalidateRegion : SkRegion -> World -> World := ltac:(assign m_invalidateRegion).
Definition set_m_lastInval : IntRect -> World -> World := ltac:(assign m_lastInval).
Definition set_tm_invertedScreenSwitch : bool -> World -> World := ltac:(assign tm_invertedScreenSwitch).
Definition set_shader : ShaderProgram -> World -> World := ltac:(assign shader).
Definition set_refcount : gmap ptr Z -> World -> World := ltac:(assign refcount).
Definition set_events : list Event -> World -> World := ltac:(assign events).


(** What this file reads from, or delegates to, code outside src/.

    - [tileWidth], [tileHeight], [TILE_PREFETCH_DISTANCE] and the product
      with [TILE_PREFETCH_RATIO] come from TilesManager.h.
    - The [layer_] functions read a [BaseLayerAndroid].
    - [ringsBorderQuads] is the walk of [paintExtras] along Skia's boundary
      path of the rings: the rectangles it hands to [drawFocusRing].
    - [baseLayer_drawGL] is the delegated draw.  It re-enters this object
      through its public methods, which never assign the two page
      pointers. *)
Class Collaborators := {
  tileWidth : Z;
  tileHeight : Z;
  TILE_PREFETCH_DISTANCE : Z;
  times_TILE_PREFETCH_RATIO : float -> float;
  layer_countChildren : ptr -> Z;
  layer_getChild0 : ptr -> option ptr;
  layer_contentWidth : ptr -> Z;
  layer_contentHeight : ptr -> Z;
  layer_getBackgroundColor : ptr -> Color;
  createSampleColorTexture : Z -> Z -> Z -> Z;
  wtf_currentTime : World -> spec_float;
  ringsBorderQuads : SkRegion -> bool -> list SkRect;
  baseLayer_drawGL :
    ptr -> spec_float -> option ptr -> IntRect -> SkRect -> float -> World -> bool * World;
  baseLayer_drawGL_pages : forall layer time root rect viewport scale w,
    let w' := snd (baseLayer_drawGL layer time root rect viewport scale w) in
    m_tiledPageA w' = m_tiledPageA w /\ m_tiledPageB w' = m_tiledPageB w;
}.

Context `{Collaborators}.

(* ===================================================================== *)
(** ** The methods of GLWebViewState *)
(* ===================================================================== *)

Definition RING_COLOR_R : Z := 0x33.
Definition RING_COLOR_G : Z := 0xb5.
Definition RING_COLOR_B : Z := 0xe5.

(** [MIN_SCALE_WARNING] is the [double] 0.1, [MAX_SCALE_WARNING] the [int] 10. *)
Definition MIN_SCALE_WARNING : spec_float := S754_finite false 7205759403792794 (-56).
Definition MAX_SCALE_WARNING : Z := 10.

Definition call (e : Event) (w : World) : World := set_events (events w ++ [e]) w.

Definition is_null (p : option ptr) : bool :=
  match p with
  | None => true
  | Some _ => false
  end.

(** [SkSafeRef] and [SkSafeUnref]: the count of the object moves by one,
    and a null pointer is left alone. *)
Definition count_add (d : Z) (p : option ptr) (counts : gmap ptr Z) : gmap ptr Z :=
  match p with
  | Some a => <[a := default 0 (counts !! a) + d]> counts
  | None => counts
  end.

Definition SkSafeRef (p : option ptr) (w : World) : World :=
  set_refcount (count_add 1 p (refcount w)) w.

Definition SkSafeUnref (p : option ptr) (w : World) : World :=
  set_refcount (count_add (-1) p (refcount w)) w.

Definition sibling (w : World) (page : ptr) : ptr :=
  if Pos.eqb page (m_tiledPageA w) then m_tiledPageB w else m_tiledPageA w.

Definition frontPage (w : World) : ptr :=
  if m_usePageA w then m_tiledPageA w else m_tiledPageB w.

Definition backPage (w : World) : ptr :=
  if m_usePageA w then m_tiledPageB w else m_tiledPageA w.

Definition next_picture_counter (c : Z) : Z := (c + 1) mod 2 ^ 32.

Definition inval (rect : IntRect) (w : World) : World :=
  let w :=
    if m_baseLayerUpdate w then
      let w := set_m_currentPictureCounter (next_picture_counter (m_currentPictureCounter w)) w in
      if negb (IntRect.isEmpty rect) then
        let w := call (TiledPage_invalidateRect (frontPage w) rect (m_currentPictureCounter w)) w in
        if IntRect.isEmpty (m_frameworkInval w) then set_m_frameworkInval rect w
        else set_m_frameworkInval (IntRect.unite (m_frameworkInval w) rect) w
      else w
    else
      set_m_invalidateRegion
        (rgn_union (m_invalidateRegion w)
           (SkIRect.mk (IntRect.x rect) (IntRect.y rect) (IntRect.maxX rect) (IntRect.maxY rect)))
        w in
  call (Profiler_nextInval rect (zm_currentScale (m_zoomManager w))) w.

Definition invalRegion (region : SkRegion) (w : World) : World :=
  fold_left (fun w r => inval (SkIRect.to_IntRect r) w) (rgn_rects region) w.

(** Lines 149-174 of [setBaseLayer]: everything before the region is
    invalidated. *)
Definition setBaseLayer_store (layer : option ptr) (isPictureAfterFirstLayout : bool)
    (w : World) : World :=
  let w :=
    if is_null layer || isPictureAfterFirstLayout then
      call (TiledPage_discardTextures (m_tiledPageB w))
        (call (TiledPage_discardTextures (m_tiledPageA w)) w)
    else w in
  let w :=
    if isPictureAfterFirstLayout then
      set_m_invalidateRegion rgn_empty (set_m_baseLayerUpdate true w)
    else w in
  let w :=
    match m_baseLayer w, layer with
    | Some old, Some new => call (BaseLayer_swapExtra old new) w
    | _, _ => w
    end in
  let w := SkSafeRef layer w in
  let w := SkSafeUnref (m_baseLayer w) w in
  let w := set_m_baseLayer layer w in
  let w :=
    match m_baseLayer w with
    | Some l => call (BaseLayer_setGLWebViewState l) w
    | None => w
    end in
  let w :=
    if m_baseLayerUpdate w then
      let w := SkSafeRef layer w in
      let w := SkSafeUnref (m_currentBaseLayer w) w in
      set_m_currentBaseLayer layer w
    else w in
  set_m_displayRings false w.

Definition setBaseLayer (layer : option ptr) (inval : SkRegion)
    (showVisualIndicator isPictureAfterFirstLayout : bool) (w : World) : World :=
  let w := setBaseLayer_store layer isPictureAfterFirstLayout w in
  let w := invalRegion inval w in
  call (TilesManager_setShowVisualIndicator showVisualIndicator) w.

(** [IntRect]'s conversion to [SkIRect]. *)
Definition IntRect_to_SkIRect (r : IntRect) : SkIRect :=
  SkIRect.mk (IntRect.x r) (IntRect.y r) (IntRect.maxX r) (IntRect.maxY r).

Definition setRings (rings : list IntRect) (isPressed isButton : bool) (w : World) : World :=
  let w := set_m_displayRings true w in
  let w := set_m_rings rgn_empty w in
  let w :=
    match rings with
    | [] => w
    | r0 :: rest =>
        set_m_rings
          (fold_left (fun g r => rgn_union g (IntRect_to_SkIRect r)) rest
             (rgn_setRect (IntRect_to_SkIRect r0))) w
    end in
  let w := set_m_ringsIsPressed isPressed w in
  set_m_ringsIsButton isButton w.

(** Modelled from the spec: the method that locks the gate (it is declared
    in GLWebViewState.h, which is not under src/).  LOCKED is
    [m_baseLayerUpdate] cleared. *)
Definition lockBaseLayerUpdate (w : World) : World := set_m_baseLayerUpdate false w.

Definition unlockBaseLayerUpdate (w : World) : World :=
  if m_baseLayerUpdate w then w
  else
    let w := set_m_baseLayerUpdate true w in
    let w := SkSafeRef (m_baseLayer w) w in
    let w := SkSafeUnref (m_currentBaseLayer w) w in
    let w := set_m_currentBaseLayer (m_baseLayer w) w in
    let w := invalRegion (m_invalidateRegion w) w in
    set_m_invalidateRegion rgn_empty w.

Definition setExtra (layer picture : ptr) (rect : IntRect) (allowSame : bool)
    (w : World) : World :=
  if negb (m_baseLayerUpdate w) then w
  else
    let w := call (BaseLayer_setExtra layer picture) w in
    if negb allowSame && IntRect.eqb (m_lastInval w) rect then w
    else
      let w := if negb (IntRect.isEmpty rect) then inval rect w else w in
      let w := if negb (IntRect.isEmpty (m_lastInval w)) then inval (m_lastInval w) w else w in
      let w := set_m_lastInval rect w in
      set_m_displayRings false w.

Definition resetRings (w : World) : World := set_m_displayRings false w.

Definition drawFocusRing (srcRect : SkRect) (w : World) : World :=
  let w :=
    if m_focusRingTexture w =? -1 then
      set_m_focusRingTexture
        (createSampleColorTexture RING_COLOR_R RING_COLOR_G RING_COLOR_B) w
    else w in
  if F32.leb (SkRect.fRight srcRect) (SkRect.fLeft srcRect)
     || F32.leb (SkRect.fBottom srcRect) (SkRect.fTop srcRect)
  then w
  else call (Shader_drawQuad srcRect (m_focusRingTexture w)) w.

Definition SkIRect_to_SkRect (ir : SkIRect) : SkRect :=
  SkRect.mk (F32.of_int (SkIRect.fLeft ir)) (F32.of_int (SkIRect.fTop ir))
            (F32.of_int (SkIRect.fRight ir)) (F32.of_int (SkIRect.fBottom ir)).

Definition paintExtras (w : World) : World :=
  if m_displayRings w && negb (rgn_isEmpty (m_rings w)) then
    let skbounds := rgn_getBounds (m_rings w) in
    if SkIRect.isEmpty skbounds then w
    else
      let glclip :=
        FloatRect.mk (F32.of_int (SkIRect.fLeft skbounds))
          (F32.of_int (SkIRect.fTop skbounds))
          (F32.of_int (SkIRect.fRight skbounds - SkIRect.fLeft skbounds))
          (F32.of_int (SkIRect.fBottom skbounds - SkIRect.fTop skbounds)) in
      let w := call (Shader_clip glclip) w in
      let w :=
        if m_ringsIsPressed w then
          fold_left (fun w ir => drawFocusRing (SkIRect_to_SkRect ir) w)
            (rgn_rects (m_rings w)) w
        else w in
      if m_ringsIsButton w && m_ringsIsPressed w then w
      else
        fold_left (fun w r => drawFocusRing r w)
          (ringsBorderQuads (m_rings w) (m_ringsIsPressed w)) w
  else w.

Definition paintBaseLayerContent (canvas : ptr) (w : World) : Z * World :=
  let w :=
    match m_currentBaseLayer w with
    | Some l => call (BaseLayer_drawCanvas l canvas) w
    | None => w
    end in
  (m_currentPictureCounter w, w).

(** [swapPages], statement by statement.  In [swapPages_with] the call into
    the page is left open: [discardTextures] stands for what
    [TiledPage::discardTextures] does, given the page it is called on and
    the state of this object at the time of the call.  [swapPages] is the
    method with the call logged like every other call into a page. *)
Definition swapPages_flip (w : World) : World :=
  set_m_usePageA (xorb (m_usePageA w) true) w.

Definition swapPages_notify (w : World) : World :=
  set_m_zoomManager (zm_swapPages (m_zoomManager w)) w.

Definition swapPages_with (discardTextures : ptr -> World -> World) (w : World) : World :=
  let w := swapPages_flip w in
  let oldPage := if m_usePageA w then m_tiledPageB w else m_tiledPageA w in
  let w := swapPages_notify w in
  discardTextures oldPage w.

Definition swapPages (w : World) : World :=
  swapPages_with (fun oldPage => call (TiledPage_discardTextures oldPage)) w.

Definition baseContentWidth (w : World) : Z :=
  match m_currentBaseLayer w with
  | Some l => layer_contentWidth l
  | None => 0
  end.

Definition baseContentHeight (w : World) : Z :=
  match m_currentBaseLayer w with
  | Some l => layer_contentHeight l
  | None => 0
  end.

Definition viewMaxTile (extent invTileContent : float) : Z :=
  Int32.add (F32.ceil_to_int (F32.mul (F32.sub extent (F32.of_int 1)) invTileContent)) 1.

Definition maxTextureCount_of (viewMaxTileX viewMaxTileY : Z) : Z :=
  Int32.mul
    (Int32.mul (Int32.add viewMaxTileX (Int32.mul TILE_PREFETCH_DISTANCE 2))
               (Int32.add viewMaxTileY (Int32.mul TILE_PREFETCH_DISTANCE 2)))
    2.

Definition setViewport (viewport : SkRect) (scale : float) (w : World) : World :=
  if skrect_equal (m_viewport w) viewport
     && F32.eqb (zm_futureScale (m_zoomManager w)) scale
  then w
  else
    let w :=
      set_m_goingDown
        (F32.leb (F32.sub (SkRect.fTop (m_viewport w)) (SkRect.fTop viewport)) (F32.of_int 0))
        w in
    let w :=
      set_m_goingLeft
        (F32.leb (F32.of_int 0) (F32.sub (SkRect.fLeft (m_viewport w)) (SkRect.fLeft viewport)))
        w in
    let w := set_m_viewport viewport w in
    let invTileContentWidth := F32.div scale (F32.of_int tileWidth) in
    let invTileContentHeight := F32.div scale (F32.of_int tileHeight) in
    let w :=
      set_m_viewportTileBounds
        (SkIRect.mk
           (F32.floor_to_int (F32.mul (SkRect.fLeft viewport) invTileContentWidth))
           (F32.floor_to_int (F32.mul (SkRect.fTop viewport) invTileContentHeight))
           (F32.ceil_to_int (F32.mul (SkRect.fRight viewport) invTileContentWidth))
           (F32.ceil_to_int (F32.mul (SkRect.fBottom viewport) invTileContentHeight)))
        w in
    let viewMaxTileX := viewMaxTile (SkRect.width viewport) invTileContentWidth in
    let viewMaxTileY := viewMaxTile (SkRect.height viewport) invTileContentHeight in
    let maxTextureCount := maxTextureCount_of viewMaxTileX viewMaxTileY in
    let w := call (TilesManager_setMaxTextureCount maxTextureCount) w in
    let w := call (TiledPage_updateBaseTileSize (m_tiledPageA w)) w in
    call (TiledPage_updateBaseTileSize (m_tiledPageB w)) w.

Definition resetFrameworkInval (w : World) : World :=
  set_m_frameworkInval (IntRect.mk 0 0 0 0) w.

Definition addDirtyArea (rect : IntRect) (w : World) : World :=
  if IntRect.isEmpty rect then w
  else
    let inflatedRect := IntRect.inflate 8 rect in
    if IntRect.isEmpty (m_frameworkLayersInval w) then
      set_m_frameworkLayersInval inflatedRect w
    else
      set_m_frameworkLayersInval (IntRect.unite (m_frameworkLayersInval w) inflatedRect) w.

Definition resetLayersDirtyArea (w : World) : World :=
  set_m_frameworkLayersInval (IntRect.mk 0 0 0 0) w.

(** The clear colour is logged by what it is computed from: the background
    colour and whether the screen is inverted. *)
Definition setupDrawing (viewRect : IntRect) (visibleRect : SkRect) (webViewRect : IntRect)
    (titleBarHeight : Z) (screenClip : IntRect) (scale : float) (w : World)
    : spec_float * World :=
  let left := IntRect.x viewRect in
  let top := IntRect.y viewRect in
  let width := IntRect.width viewRect in
  let height := IntRect.height viewRect in
  let w := call (GL_clearColor (m_backgroundColor w) (tm_invertedScreen w)) w in
  let w := call GL_clear w in
  let w := call (GL_viewport left top width height) w in
  let w := if sh_program (shader w) =? -1 then set_shader (sh_init (shader w)) w else w in
  let w := set_shader (sh_setViewRect viewRect (shader w)) w in
  let w := set_shader (sh_setViewport visibleRect (shader w)) w in
  let w := set_shader (sh_setWebViewRect webViewRect (shader w)) w in
  let w := set_shader (sh_setTitleBarHeight titleBarHeight (shader w)) w in
  let w := set_shader (sh_setScreenClip screenClip (shader w)) w in
  let w := call Shader_resetBlending w in
  let currentTime := wtf_currentTime w in
  let w := setViewport visibleRect scale w in
  let '(zm, preZoom, future) :=
    zm_processNewScale currentTime scale (m_viewportTileBounds w) (m_preZoomBounds w)
      (m_futureViewportTileBounds w) (m_zoomManager w) in
  let w := set_m_zoomManager zm w in
  let w := set_m_preZoomBounds preZoom w in
  let w := set_m_futureViewportTileBounds future w in
  (currentTime, w).

(** [scale < MIN_SCALE_WARNING || scale > MAX_SCALE_WARNING]: the first
    comparison is made in [double], the second in [float]. *)
Definition scale_out_of_range (scale : float) : bool :=
  SFltb (F32.to_double scale) MIN_SCALE_WARNING
  || F32.ltb (F32.of_int MAX_SCALE_WARNING) scale.

(** How a call of [drawGL] ends: it returns its result and the rectangle
    behind [invalRect], or [CRASH()] ends the process. *)
Inductive Outcome :=
| Returned (ret : bool) (invalRect : IntRect) (w : World)
| Crashed (w : World).

(** Lines 583-594 of [drawGL]: the two checks of the scale around the
    upload of the tiles.  [inr] is the process aborted by [CRASH()]. *)
Definition drawGL_updateTiles (scale : float) (w : World) : World + World :=
  let w := if scale_out_of_range scale then call (Log_scaleBeforeUpdate scale) w else w in
  let w := call TransferQueue_updateDirtyBaseTiles w in
  if scale_out_of_range scale then inr (call (Log_scaleAfterUpdate scale) w)
  else inl w.

(** Lines 596-613 of [drawGL]: the textures, the draw delegated to the base
    layer, the extras, and the root kept for the next frame.  The out
    parameter [buffersSwappedPtr] is only handed on to the base layer. *)
Definition drawGL_draw (baseLayer : ptr) (compositedRoot : option ptr) (rect : IntRect)
    (viewport : SkRect) (webViewRect : IntRect) (titleBarHeight : Z) (clip : IntRect)
    (scale : float) (w : World) : bool * World :=
  let w := call TilesManager_gatherLayerTextures w in
  let w :=
    if negb (bool_decide (compositedRoot = m_previouslyUsedRoot w)) then
      call (TilesManager_swapLayersTextures (m_previouslyUsedRoot w) compositedRoot) w
    else w in
  let w := set_m_backgroundColor (layer_getBackgroundColor baseLayer) w in
  let '(currentTime, w) :=
    setupDrawing rect viewport webViewRect titleBarHeight clip scale w in
  let '(ret, w) :=
    baseLayer_drawGL baseLayer currentTime compositedRoot rect viewport scale w in
  let w := paintExtras w in
  let w := call GL_bindBuffer w in
  let w := SkSafeRef compositedRoot w in
  let w := SkSafeUnref (m_previouslyUsedRoot w) w in
  let w := set_m_previouslyUsedRoot compositedRoot w in
  (ret, w).

(** Lines 615-660 of [drawGL]: the result and the invalidation written
    through [invalRect]. *)
Definition drawGL_report (ret : bool) (rect invalRect : IntRect) (w : World)
    : bool * IntRect * World :=
  let ret := ret || tm_invertedScreenSwitch w in
  if ret then
    let fullScreenInval := IntRect.isEmpty (m_frameworkInval w) in
    let '(fullScreenInval, w) :=
      if tm_invertedScreenSwitch w then (true, set_tm_invertedScreenSwitch false w)
      else (fullScreenInval, w) in
    let '(fullScreenInval, invalRect) :=
      if negb fullScreenInval then
        let frameworkInval := sh_rectInInvScreenCoord (shader w) (m_frameworkInval w) in
        let frameworkInval := FloatRect.inflate (F32.of_int 1) frameworkInval in
        let inval := FloatRect.to_IntRect frameworkInval in
        let inval := IntRect.unite inval (m_frameworkLayersInval w) in
        let invalRect := inval in
        if negb (IntRect.intersects invalRect rect) then (true, invalRect)
        else (fullScreenInval, invalRect)
      else (fullScreenInval, invalRect) in
    let invalRect := if fullScreenInval then IntRect.mk 0 0 0 0 else invalRect in
    (ret, invalRect, w)
  else (ret, invalRect, resetFrameworkInval w).

(** Lines 537-594 of [drawGL]: the references taken on the two base layers,
    the prefetch expansion, the composited root and the upload. *)
Inductive Prepared :=
| NoContent (w : World)
| Aborted (w : World)
| Ready (baseLayer : ptr) (baseForComposited compositedRoot : option ptr) (w : World).

Definition drawGL_prepare (viewport : SkRect) (scale : float) (w : World) : Prepared :=
  let w :=
    call (Profiler_nextFrame (SkRect.fLeft viewport) (SkRect.fTop viewport)
            (SkRect.fRight viewport) (SkRect.fBottom viewport) scale) w in
  let w := call TilesManager_incDrawGLCount w in
  let baseLayer := m_currentBaseLayer w in
  let w := SkSafeRef baseLayer w in
  let baseForComposited := m_baseLayer w in
  let w := SkSafeRef baseForComposited w in
  match baseLayer with
  | None => NoContent (SkSafeUnref baseForComposited w)
  | Some layer =>
      let viewWidth :=
        times_TILE_PREFETCH_RATIO (F32.sub (SkRect.fRight viewport) (SkRect.fLeft viewport)) in
      let viewHeight :=
        times_TILE_PREFETCH_RATIO (F32.sub (SkRect.fBottom viewport) (SkRect.fTop viewport)) in
      let useHorzPrefetch := F32.ltb viewWidth (F32.of_int (baseContentWidth w)) in
      let useVertPrefetch := F32.ltb viewHeight (F32.of_int (baseContentHeight w)) in
      let w := set_m_expandedTileBoundsX (if useHorzPrefetch then TILE_PREFETCH_DISTANCE else 0) w in
      let w := set_m_expandedTileBoundsY (if useVertPrefetch then TILE_PREFETCH_DISTANCE else 0) w in
      let w := resetLayersDirtyArea w in
      let '(baseForComposited, w) :=
        match baseForComposited with
        | Some b =>
            if layer_countChildren b =? 0 then
              (baseLayer, SkSafeUnref baseForComposited (SkSafeRef baseLayer w))
            else (baseForComposited, w)
        | None => (baseLayer, SkSafeUnref baseForComposited (SkSafeRef baseLayer w))
        end in
      let compositedRoot :=
        match baseForComposited with
        | Some b => if 1 <=? layer_countChildren b then layer_getChild0 b else None
        | None => None
        end in
      match drawGL_updateTiles scale w with
      | inr w => Aborted w
      | inl w => Ready layer baseForComposited compositedRoot w
      end
  end.

Definition drawGL (rect : IntRect) (viewport : SkRect) (invalRect : IntRect)
    (webViewRect : IntRect) (titleBarHeight : Z) (clip : IntRect) (scale : float)
    (w : World) : Outcome :=
  match drawGL_prepare viewport scale w with
  | NoContent w => Returned false invalRect w
  | Aborted w => Crashed w
  | Ready baseLayer baseForComposited compositedRoot w =>
      let '(ret, w) :=
        drawGL_draw baseLayer compositedRoot rect viewport webViewRect titleBarHeight
          clip scale w in
      let '(ret, invalRect, w) := drawGL_report ret rect invalRect w in
      let w := SkSafeUnref baseForComposited w in
      let w := SkSafeUnref (Some baseLayer) w in
      Returned ret invalRect w
  end.

(** The constructor.  [new TiledPage] returns an address not yet in use;
    [allocated] is the set of addresses in use before the call.  The
    constructor does not initialise [m_ringsIsPressed] and [m_ringsIsButton]:
    they start at the values given. *)
Definition GLWebViewState_new (allocated : gset ptr) (zoom : ZoomManager)
    (sh : ShaderProgram) (invertedScreen invertedScreenSwitch : bool)
    (ringsIsPressed ringsIsButton : bool) (refs : gmap ptr Z) (log : list Event) : World :=
  let pageA := fresh allocated in
  let pageB := fresh ({[pageA]} ∪ allocated) in
  {| m_zoomManager := zoom;
     m_baseLayer := None;
     m_currentBaseLayer := None;
     m_previouslyUsedRoot := None;
     m_currentPictureCounter := 0;
     m_usePageA := true;
     m_frameworkInval := IntRect.mk 0 0 0 0;
     m_frameworkLayersInval := IntRect.mk 0 0 0 0;
     m_baseLayerUpdate := true;
     m_backgroundColor := SK_ColorWHITE;
     m_displayRings := false;
     m_rings := rgn_empty;
     m_ringsIsPressed := ringsIsPressed;
     m_ringsIsButton := ringsIsButton;
     m_focusRingTexture := -1;
     m_goingDown := true;
     m_goingLeft := false;
     m_expandedTileBoundsX := 0;
     m_expandedTileBoundsY := 0;
     m_viewport := SkRect.empty;
     m_viewportTileBounds := SkIRect.empty;
     m_futureViewportTileBounds := SkIRect.empty;
     m_preZoomBounds := SkIRect.empty;
     m_invalidateRegion := rgn_empty;
     m_lastInval := IntRect.mk 0 0 0 0;
     m_tiledPageA := pageA;
     m_tiledPageB := pageB;
     tm_invertedScreen := invertedScreen;
     tm_invertedScreenSwitch := invertedScreenSwitch;
     shader := sh;
     refcount := refs;
     events := log |}.

(** The public methods, as calls a client can make, and the states they
    lead to from a freshly constructed object. *)
Inductive Method :=
| Call_setBaseLayer (layer : option ptr) (inval : SkRegion)
    (showVisualIndicator isPictureAfterFirstLayout : bool)
| Call_setRings (rings : list IntRect) (isPressed isButton : bool)
| Call_lockBaseLayerUpdate
| Call_unlockBaseLayerUpdate
| Call_setExtra (layer picture : ptr) (rect : IntRect) (allowSame : bool)
| Call_inval (rect : IntRect)
| Call_resetRings
| Call_paintBaseLayerContent (canvas : ptr)
| Call_swapPages
| Call_setViewport (viewport : SkRect) (scale : float)
| Call_resetFrameworkInval
| Call_addDirtyArea (rect : IntRect)
| Call_resetLayersDirtyArea
| Call_drawGL (rect : IntRect) (viewport : SkRect) (invalRect webViewRect : IntRect)
    (titleBarHeight : Z) (clip : IntRect) (scale : float).

(** The state a call leaves behind; [None] when the process was aborted. *)
Definition perform (m : Method) (w : World) : option World :=
  match m with
  | Call_setBaseLayer layer inval show first => Some (setBaseLayer layer inval show first w)
  | Call_setRings rings isPressed isButton => Some (setRings rings isPressed isButton w)
  | Call_lockBaseLayerUpdate => Some (lockBaseLayerUpdate w)
  | Call_unlockBaseLayerUpdate => Some (unlockBaseLayerUpdate w)
  | Call_setExtra layer picture rect allowSame =>
      Some (setExtra layer picture rect allowSame w)
  | Call_inval rect => Some (inval rect w)
  | Call_resetRings => Some (resetRings w)
  | Call_paintBaseLayerContent canvas => Some (snd (paintBaseLayerContent canvas w))
  | Call_swapPages => Some (swapPages w)
  | Call_setViewport viewport scale => Some (setViewport viewport scale w)
  | Call_resetFrameworkInval => Some (resetFrameworkInval w)
  | Call_addDirtyArea rect => Some (addDirtyArea rect w)
  | Call_resetLayersDirtyArea => Some (resetLayersDirtyArea w)
  | Call_drawGL rect viewport invalRect webViewRect titleBarHeight clip scale =>
      match drawGL rect viewport invalRect webViewRect titleBarHeight clip scale w with
      | Returned _ _ w' => Some w'
      | Crashed _ => None
      end
  end.

(** [invalRegion], as the loop over the rectangles of the iterator. *)
Definition invalRects (l : list SkIRect) (w : World) : World :=
  fold_left (fun w r => inval (SkIRect.to_IntRect r) w) l w.

(** A run of [setBaseLayer] calls without the flag of a first layout. *)
Record BaseContent := {
  bc_layer : option ptr;
  bc_inval : SkRegion;
  bc_showVisualIndicator : bool
}.

Definition setBaseLayers (calls : list BaseContent) (w : World) : World :=
  fold_left
    (fun w c => setBaseLayer (bc_layer c) (bc_inval c) (bc_showVisualIndicator c) false w)
    calls w.

(** The rectangles handed to [TiledPage::invalidateRect], in call order. *)
Definition invalidated (log : list Event) : list IntRect :=
  flat_map
    (fun e => match e with
              | TiledPage_invalidateRect _ r _ => [r]
              | _ => []
              end)
    log.


(** What the caller of [drawGL] sees when the call returns. *)
Definition reported (o : Outcome) : option (bool * IntRect) :=
  match o with
  | Returned ret invalRect _ => Some (ret, invalRect)
  | Crashed _ => None
  end.

Inductive reachable : World -> Prop :=
| reachable_new : forall allocated zoom sh inv sw pressed button refs log,
    reachable (GLWebViewState_new allocated zoom sh inv sw pressed button refs log)
| reachable_step : forall w m w',
    reachable w -> perform m w = Some w' -> reachable w'.

(** *** Observations used by the further properties *)

(** The reference count of an object (0 for one never counted), the number
    of the three handles of this object that point to it, and the
    difference: the references held by everybody else. *)
Definition count (w : World) (p : ptr) : Z := default 0 (refcount w !! p).

Definition holds (handle : option ptr) (p : ptr) : Z :=
  if bool_decide (handle = Some p) then 1 else 0.

Definition held (w : World) (p : ptr) : Z :=
  holds (m_baseLayer w) p + holds (m_currentBaseLayer w) p
  + holds (m_previouslyUsedRoot w) p.

Definition foreign_refs (w : World) (p : ptr) : Z := count w p - held w p.

(** The gate at rest: when it is unlocked, the layer in use is the latest
    one and nothing is pending. *)
Definition gate_settled (w : World) : Prop :=
  m_baseLayerUpdate w = true ->
  m_currentBaseLayer w = m_baseLayer w /\ m_invalidateRegion w = rgn_empty.

(** What decides the gate, and what decides the custody of the layers. *)
Definition gate (w : World) : bool * option ptr * option ptr * SkRegion :=
  (m_baseLayerUpdate w, m_baseLayer w, m_currentBaseLayer w, m_invalidateRegion w).

Definition custody (w : World) : gmap ptr Z * option ptr * option ptr * option ptr :=
  (refcount w, m_baseLayer w, m_currentBaseLayer w, m_previouslyUsedRoot w).

(** A run of [inval] calls. *)
Definition invals (l : list IntRect) (w : World) : World :=
  fold_left (fun w r => inval r w) l w.

(** The rectangles handed to [TiledPage::invalidateRect], each with the page
    that receives it, in call order. *)
Definition invalidations (log : list Event) : list (ptr * IntRect) :=
  flat_map
    (fun e => match e with
              | TiledPage_invalidateRect page r _ => [(page, r)]
              | _ => []
              end)
    log.

(** The picture counts handed to [TiledPage::invalidateRect], in call order. *)
Definition generations (log : list Event) : list Z :=
  flat_map
    (fun e => match e with
              | TiledPage_invalidateRect _ _ c => [c]
              | _ => []
              end)
    log.

(** The quads handed to the shader, in call order, and the test of
    [drawFocusRing] that lets a quad through. *)
Definition quads (log : list Event) : list SkRect :=
  flat_map
    (fun e => match e with
              | Shader_drawQuad r _ => [r]
              | _ => []
              end)
    log.

Definition accepted_quad (r : SkRect) : bool :=
  negb (F32.leb (SkRect.fRight r) (SkRect.fLeft r)
        || F32.leb (SkRect.fBottom r) (SkRect.fTop r)).

(** The pages told to discard their textures, in call order. *)
Definition discarded (log : list Event) : list ptr :=
  flat_map
    (fun e => match e with
              | TiledPage_discardTextures page => [page]
              | _ => []
              end)
    log.

End Model.

(* ===================================================================== *)
(** ** Stand-ins for the collaborators *)
(* ===================================================================== *)

(** Executable stand-ins, used to run the methods on concrete inputs: a
    region kept as the list of the rectangles united into it, a zoom manager
    that is its two scales, a shader whose screen coordinates are the
    content coordinates, and a base layer whose draw reports a fixed
    result. *)
Module Double.

Definition same_float (a b : spec_float) : bool :=
  match a, b with
  | S754_zero s1, S754_zero s2 => Bool.eqb s1 s2
  | S754_infinity s1, S754_infinity s2 => Bool.eqb s1 s2
  | S754_nan, S754_nan => true
  | S754_finite s1 m1 e1, S754_finite s2 m2 e2 =>
      Bool.eqb s1 s2 && Pos.eqb m1 m2 && Z.eqb e1 e2
  | _, _ => false
  end.

Definition same_rect (a b : SkRect) : bool :=
  same_float (SkRect.fLeft a) (SkRect.fLeft b)
  && same_float (SkRect.fTop a) (SkRect.fTop b)
  && same_float (SkRect.fRight a) (SkRect.fRight b)
  && same_float (SkRect.fBottom a) (SkRect.fBottom b).

Definition solid (r : SkIRect) : bool := negb (SkIRect.isEmpty r).

Definition rects (g : list SkIRect) : list SkIRect := List.filter solid g.

Definition union (g : list SkIRect) (r : SkIRect) : list SkIRect :=
  if SkIRect.isEmpty r then g else g ++ [r].

Definition bounds (g : list SkIRect) : SkIRect :=
  match rects g with
  | [] => SkIRect.empty
  | r0 :: rest =>
      fold_left
        (fun b r =>
           SkIRect.mk (Z.min (SkIRect.fLeft b) (SkIRect.fLeft r))
             (Z.min (SkIRect.fTop b) (SkIRect.fTop r))
             (Z.max (SkIRect.fRight b) (SkIRect.fRight r))
             (Z.max (SkIRect.fBottom b) (SkIRect.fBottom r)))
        rest r0
  end.

Definition screen (r : IntRect) : FloatRect :=
  FloatRect.mk (F32.of_int (IntRect.x r)) (F32.of_int (IntRect.y r))
    (F32.of_int (IntRect.width r)) (F32.of_int (IntRect.height r)).

Definition foreign : Foreign.
Proof.
  refine
    {| SkRegion := list SkIRect;
       rgn_empty := [];
       rgn_isEmpty := fun g => match rects g with [] => true | _ => false end;
       rgn_setRect := fun r => union [] r;
       rgn_union := union;
       rgn_getBounds := bounds;
       rgn_rects := rects;
       skrect_equal := same_rect;
       ZoomManager := float * float;
       zm_currentScale := fst;
       zm_futureScale := snd;
       zm_swapPages := fun z => (snd z, snd z);
       zm_processNewScale := fun _ _ _ preZoom future z => (z, preZoom, future);
       ShaderProgram := Z;
       sh_program := fun p => p;
       sh_init := fun _ => 1;
       sh_setViewRect := fun _ p => p;
       sh_setViewport := fun _ p => p;
       sh_setWebViewRect := fun _ p => p;
       sh_setTitleBarHeight := fun _ p => p;
       sh_setScreenClip := fun _ p => p;
       sh_rectInInvScreenCoord := fun _ r => screen r |}.
  - reflexivity.
  - intros g r Hin. unfold rects in Hin. apply filter_In in Hin.
    destruct Hin as [_ Hs]. unfold solid in Hs.
    destruct (SkIRect.isEmpty r); [discriminate | reflexivity].
  - intros g r px py. unfold union, rects.
    destruct (SkIRect.isEmpty r) eqn:Hr.
    + split.
      * intros Hq. left. exact Hq.
      * intros [Hq | Hc]; [exact Hq |].
        exfalso. unfold SkIRect.isEmpty in Hr. unfold SkIRect.contains in Hc.
        apply orb_true_iff in Hr. destruct Hr as [Hr | Hr]; apply Z.leb_le in Hr; lia.
    + split.
      * intros (q & Hin & Hc). apply filter_In in Hin. destruct Hin as [Hin Hs].
        apply in_app_or in Hin. destruct Hin as [Hin | [Heq | []]].
        -- left. exists q. split; [apply filter_In; split; assumption | exact Hc].
        -- right. subst q. exact Hc.
      * intros [(q & Hin & Hc) | Hc].
        -- apply filter_In in Hin. destruct Hin as [Hin Hs].
           exists q. split; [| exact Hc].
           apply filter_In. split; [apply in_or_app; left; exact Hin | exact Hs].
        -- exists r. split; [| exact Hc].
           apply filter_In. split; [apply in_or_app; right; left; reflexivity |].
           unfold solid. rewrite Hr. reflexivity.
Defined.

(** 1.2 as a [float]. *)
Definition ratio : float := S754_finite false 10066330 (-23).

Definition collaborators (drawResult : bool) : @Collaborators foreign.
Proof.
  refine
    {| tileWidth := 256;
       tileHeight := 256;
       TILE_PREFETCH_DISTANCE := 1;
       times_TILE_PREFETCH_RATIO := fun v => F32.mul v ratio;
       layer_countChildren := fun _ => 0;
       layer_getChild0 := fun _ => None;
       layer_contentWidth := fun _ => 100;
       layer_contentHeight := fun _ => 100;
       layer_getBackgroundColor := fun _ => SK_ColorWHITE;
       createSampleColorTexture := fun _ _ _ => 1;
       wtf_currentTime := fun _ => S754_zero false;
       ringsBorderQuads := fun _ _ => [];
       baseLayer_drawGL := fun _ _ _ _ _ _ w => (drawResult, w) |}.
  intros. split; reflexivity.
Defined.

(** A freshly constructed object among the stand-ins: no address in use,
    both scales 1, the screen not inverted. *)
Definition one : float := S754_finite false 8388608 (-23).

Definition fresh_world (invertedScreenSwitch : bool) : @World foreign :=
  @GLWebViewState_new foreign ∅ (one, one) 1 false invertedScreenSwitch false false ∅ [].

(** The same object after a base layer (at address 10) was supplied, and
    after the rectangle (10,10,10,10) was invalidated on top of that. *)
Definition loaded (invertedScreenSwitch : bool) : @World foreign :=
  @setBaseLayer foreign (Some 10%positive) [] false false
    (fresh_world invertedScreenSwitch).

Definition dirtied (invertedScreenSwitch : bool) : @World foreign :=
  @inval foreign (IntRect.mk 10 10 10 10) (loaded invertedScreenSwitch).

(** Rectangles and scales to call the methods with. *)
Definition square (side : Z) : SkRect :=
  SkRect.mk (F32.of_int 0) (F32.of_int 0) (F32.of_int side) (F32.of_int side).

Definition zero_wide : SkRect :=
  SkRect.mk (F32.of_int 0) (F32.of_int 0) (F32.of_int 0) (F32.of_int 100).

Definition screen_rect : IntRect := IntRect.mk 0 0 100 100.

(** A locked gate over the base layer at address 10. *)
Definition locked : @World foreign := @lockBaseLayerUpdate foreign (loaded false).

Definition region_of (l : list SkIRect) : @SkRegion foreign := l.

Definition two_supplies : list (@BaseContent foreign) :=
  [ {| bc_layer := Some 11%positive; bc_inval := region_of [SkIRect.mk 0 0 5 5];
       bc_showVisualIndicator := false |};
    {| bc_layer := Some 12%positive; bc_inval := region_of [SkIRect.mk 10 10 20 20];
       bc_showVisualIndicator := false |} ].

Definition busy : @Collaborators foreign := collaborators true.

End Double.
(* ===================================================================== *)
(** ** Properties *)
(* ===================================================================== *)

Section Properties.

Context `{Collaborators}.

(** *** What the methods leave alone *)

(** The two page pointers, as a pair. *)
Definition pages (w : World) : ptr * ptr := (m_tiledPageA w, m_tiledPageB w).

(** Splits on a test of the goal that contains no other test. *)
Ltac split_test :=
  match goal with
  | |- context [match ?b with _ => _ end] =>
      lazymatch b with
      | context [match _ with _ => _ end] => fail
      | _ => destruct b eqn:?
      end
  end.

Ltac frame := intros; repeat (simpl; split_test); simpl; try reflexivity; try congruence.

Lemma fold_left_keeps {A B S : Type} (obs : S -> B) (f : S -> A -> S) (l : list A) :
  (forall s a, obs (f s a) = obs s) -> forall s, obs (fold_left f l s) = obs s.
Proof.
  intros Hf. induction l as [| a l IH]; intros s; simpl.
  - reflexivity.
  - rewrite IH. apply Hf.
Qed.

Lemma pages_inval rect w : pages (inval rect w) = pages w.
Proof. unfold inval. frame. Qed.

Lemma pages_invalRegion region w : pages (invalRegion region w) = pages w.
Proof. unfold invalRegion. apply fold_left_keeps. intros. apply pages_inval. Qed.

Lemma pages_setBaseLayer layer region show first w :
  pages (setBaseLayer layer region show first w) = pages w.
Proof.
  unfold setBaseLayer. change (pages (call ?e ?w)) with (pages w).
  rewrite pages_invalRegion. unfold pages, setBaseLayer_store. frame.
Qed.

Lemma pages_setRings rings isPressed isButton w :
  pages (setRings rings isPressed isButton w) = pages w.
Proof. unfold setRings. frame. Qed.

Lemma pages_unlockBaseLayerUpdate w : pages (unlockBaseLayerUpdate w) = pages w.
Proof.
  unfold unlockBaseLayerUpdate. destruct (m_baseLayerUpdate w); [reflexivity |].
  change (pages (set_m_invalidateRegion ?g ?w)) with (pages w).
  rewrite pages_invalRegion. reflexivity.
Qed.

Lemma pages_setExtra layer picture rect allowSame w :
  pages (setExtra layer picture rect allowSame w) = pages w.
Proof.
  unfold setExtra.
  destruct (negb (m_baseLayerUpdate w)); [reflexivity |].
  destruct (negb allowSame && _); [reflexivity |].
  change (pages (set_m_displayRings ?b (set_m_lastInval ?r ?w))) with (pages w).
  destruct (negb (IntRect.isEmpty rect)), (negb (IntRect.isEmpty _));
    rewrite ?pages_inval; reflexivity.
Qed.

Lemma pages_drawFocusRing r w : pages (drawFocusRing r w) = pages w.
Proof. unfold drawFocusRing. frame. Qed.

Lemma pages_paintExtras w : pages (paintExtras w) = pages w.
Proof.
  unfold paintExtras.
  destruct (m_displayRings w && _); [| reflexivity].
  destruct (SkIRect.isEmpty _); [reflexivity |].
  destruct (m_ringsIsButton _ && m_ringsIsPressed _);
    rewrite ?(fold_left_keeps pages) by (intros; apply pages_drawFocusRing);
    destruct (m_ringsIsPressed _);
    rewrite ?(fold_left_keeps pages) by (intros; apply pages_drawFocusRing);
    reflexivity.
Qed.

Lemma pages_swapPages w : pages (swapPages w) = pages w.
Proof. reflexivity. Qed.

Lemma pages_setViewport viewport scale w : pages (setViewport viewport scale w) = pages w.
Proof. unfold setViewport. frame. Qed.

Lemma pages_addDirtyArea rect w : pages (addDirtyArea rect w) = pages w.
Proof. unfold addDirtyArea. frame. Qed.

Lemma pages_setupDrawing viewRect visibleRect webViewRect titleBarHeight screenClip scale w :
  pages (snd (setupDrawing viewRect visibleRect webViewRect titleBarHeight screenClip scale w))
  = pages w.
Proof.
  unfold setupDrawing.
  destruct (zm_processNewScale _ _ _ _ _ _) as [[zm pre] fut]. simpl snd.
  change (pages (set_m_futureViewportTileBounds ?a (set_m_preZoomBounds ?b (set_m_zoomManager ?c ?w))))
    with (pages w).
  rewrite pages_setViewport. frame.
Qed.

Lemma pages_drawGL_prepare viewport scale w :
  match drawGL_prepare viewport scale w with
  | NoContent w' | Aborted w' | Ready _ _ _ w' => pages w' = pages w
  end.
Proof.
  unfold drawGL_prepare, drawGL_updateTiles. simpl.
  destruct (m_currentBaseLayer w) as [layer |]; [| reflexivity].
  destruct (m_baseLayer w) as [b |]; simpl.
  - destruct (layer_countChildren b =? 0); simpl;
      destruct (scale_out_of_range scale); reflexivity.
  - destruct (scale_out_of_range scale); reflexivity.
Qed.

Lemma pages_drawGL_draw layer root rect viewport webViewRect titleBarHeight clip scale w :
  pages (snd (drawGL_draw layer root rect viewport webViewRect titleBarHeight clip scale w))
  = pages w.
Proof.
  unfold drawGL_draw.
  destruct (setupDrawing _ _ _ _ _ _ _) as [time w1] eqn:Hsetup.
  destruct (baseLayer_drawGL _ _ _ _ _ _ _) as [ret w2] eqn:Hdraw.
  simpl snd.
  change (pages (set_m_previouslyUsedRoot ?r (SkSafeUnref ?p (SkSafeRef ?q (call ?e ?w)))))
    with (pages w).
  rewrite pages_paintExtras.
  pose proof (baseLayer_drawGL_pages layer time root rect viewport scale w1) as Hlaw.
  rewrite Hdraw in Hlaw. simpl in Hlaw. destruct Hlaw as [Ha Hb].
  unfold pages at 1. rewrite Ha, Hb. fold (pages w1).
  replace w1 with (snd (setupDrawing rect viewport webViewRect titleBarHeight clip scale
    (set_m_backgroundColor (layer_getBackgroundColor layer)
       (if negb (bool_decide (root = m_previouslyUsedRoot (call TilesManager_gatherLayerTextures w)))
        then call (TilesManager_swapLayersTextures
                     (m_previouslyUsedRoot (call TilesManager_gatherLayerTextures w)) root)
               (call TilesManager_gatherLayerTextures w)
        else call TilesManager_gatherLayerTextures w))))
    by (rewrite Hsetup; reflexivity).
  rewrite pages_setupDrawing. frame.
Qed.

Lemma pages_drawGL_report ret rect invalRect w :
  pages (snd (drawGL_report ret rect invalRect w)) = pages w.
Proof. unfold drawGL_report. frame. Qed.

Lemma pages_drawGL rect viewport invalRect webViewRect titleBarHeight clip scale w :
  match drawGL rect viewport invalRect webViewRect titleBarHeight clip scale w with
  | Returned _ _ w' | Crashed w' => pages w' = pages w
  end.
Proof.
  unfold drawGL.
  pose proof (pages_drawGL_prepare viewport scale w) as Hprep.
  destruct (drawGL_prepare viewport scale w) as [w1 | w1 | layer b root w1];
    [exact Hprep | exact Hprep |].
  pose proof (pages_drawGL_draw layer root rect viewport webViewRect titleBarHeight clip
                scale w1) as Hdraw.
  destruct (drawGL_draw _ _ _ _ _ _ _ _ _) as [ret w2]. simpl in Hdraw.
  pose proof (pages_drawGL_report ret rect invalRect w2) as Hrep.
  destruct (drawGL_report ret rect invalRect w2) as [[ret' out] w3]. simpl in Hrep.
  change (pages w3 = pages w). congruence.
Qed.

Lemma pages_perform m w w' : perform m w = Some w' -> pages w' = pages w.
Proof.
  destruct m; simpl; intros Hp; try (injection Hp as <-).
  - apply pages_setBaseLayer.
  - apply pages_setRings.
  - reflexivity.
  - apply pages_unlockBaseLayerUpdate.
  - apply pages_setExtra.
  - apply pages_inval.
  - reflexivity.
  - unfold paintBaseLayerContent. frame.
  - reflexivity.
  - apply pages_setViewport.
  - reflexivity.
  - apply pages_addDirtyArea.
  - reflexivity.
  - pose proof (pages_drawGL rect viewport invalRect webViewRect titleBarHeight clip scale w)
      as Hd.
    destruct (drawGL _ _ _ _ _ _ _ _); [| discriminate].
    injection Hp as <-. exact Hd.
Qed.

(** The two pages of a freshly constructed object are two objects. *)
Lemma new_pages_distinct allocated zoom sh inv sw pressed button refs log :
  let w := GLWebViewState_new allocated zoom sh inv sw pressed button refs log in
  m_tiledPageA w <> m_tiledPageB w.
Proof.
  simpl. intros Heq.
  pose proof (is_fresh ({[fresh allocated]} ∪ allocated)) as Hfresh.
  rewrite <- Heq in Hfresh. apply Hfresh. set_solver.
Qed.

Lemma reachable_pages_distinct w : reachable w -> m_tiledPageA w <> m_tiledPageB w.
Proof.
  induction 1 as [| w m w' _ IH Hp].
  - apply new_pages_distinct.
  - apply pages_perform in Hp. unfold pages in Hp. congruence.
Qed.

(** *** Rectangles *)

Lemma IntRect_isEmpty_false r :
  IntRect.isEmpty r = false <-> 0 < IntRect.width r /\ 0 < IntRect.height r.
Proof.
  unfold IntRect.isEmpty. rewrite orb_false_iff, !Z.leb_gt. reflexivity.
Qed.

Lemma IntRect_isEmpty_true r :
  IntRect.isEmpty r = true <-> IntRect.width r <= 0 \/ IntRect.height r <= 0.
Proof.
  unfold IntRect.isEmpty. rewrite orb_true_iff, !Z.leb_le. reflexivity.
Qed.

Lemma IntRect_eqb_eq a b : IntRect.eqb a b = true <-> a = b.
Proof.
  unfold IntRect.eqb. rewrite !andb_true_iff, !Z.eqb_eq.
  destruct a, b; simpl. split.
  - intros [[[-> ->] ->] ->]. reflexivity.
  - intros [= -> -> -> ->]. repeat split.
Qed.

Lemma unite_empty_r u r : IntRect.isEmpty r = true -> IntRect.unite u r = u.
Proof. intros Hr. unfold IntRect.unite. rewrite Hr. reflexivity. Qed.

Lemma unite_nonempty u r :
  IntRect.isEmpty u = false -> IntRect.isEmpty r = false ->
  IntRect.unite u r
  = IntRect.mk (Z.min (IntRect.x u) (IntRect.x r)) (Z.min (IntRect.y u) (IntRect.y r))
      (Z.max (IntRect.maxX u) (IntRect.maxX r) - Z.min (IntRect.x u) (IntRect.x r))
      (Z.max (IntRect.maxY u) (IntRect.maxY r) - Z.min (IntRect.y u) (IntRect.y r)).
Proof. intros Hu Hr. unfold IntRect.unite. rewrite Hr, Hu. reflexivity. Qed.

Lemma unite_keeps_nonempty u r :
  IntRect.isEmpty u = false -> IntRect.isEmpty (IntRect.unite u r) = false.
Proof.
  intros Hu. destruct (IntRect.isEmpty r) eqn:Hr.
  - unfold IntRect.unite. rewrite Hr. exact Hu.
  - rewrite unite_nonempty by assumption.
    apply IntRect_isEmpty_false in Hu, Hr. apply IntRect_isEmpty_false.
    unfold IntRect.maxX, IntRect.maxY. simpl. lia.
Qed.

Lemma unite_swap u r1 r2 :
  IntRect.unite (IntRect.unite u r1) r2 = IntRect.unite (IntRect.unite u r2) r1.
Proof.
  destruct (IntRect.isEmpty r1) eqn:H1, (IntRect.isEmpty r2) eqn:H2.
  - unfold IntRect.unite. rewrite H1, H2. reflexivity.
  - unfold IntRect.unite at 2 3. rewrite H1. reflexivity.
  - unfold IntRect.unite at 1 4. rewrite H2. reflexivity.
  - destruct (IntRect.isEmpty u) eqn:Hu.
    + assert (E1 : IntRect.unite u r1 = r1) by (unfold IntRect.unite; rewrite H1, Hu; reflexivity).
      assert (E2 : IntRect.unite u r2 = r2) by (unfold IntRect.unite; rewrite H2, Hu; reflexivity).
      rewrite E1, E2, !unite_nonempty by assumption.
      f_equal; lia.
    + rewrite (unite_nonempty (IntRect.unite u r1) r2)
        by (auto using unite_keeps_nonempty).
      rewrite (unite_nonempty (IntRect.unite u r2) r1)
        by (auto using unite_keeps_nonempty).
      rewrite !(unite_nonempty u) by assumption.
      unfold IntRect.maxX, IntRect.maxY. simpl. f_equal; lia.
Qed.

(** The union of two non-empty rectangles is the smallest rectangle that
    encloses both. *)
Lemma unite_smallest u r :
  IntRect.isEmpty u = false -> IntRect.isEmpty r = false ->
  IntRect.encloses (IntRect.unite u r) u /\
  IntRect.encloses (IntRect.unite u r) r /\
  forall b, IntRect.encloses b u -> IntRect.encloses b r ->
            IntRect.encloses b (IntRect.unite u r).
Proof.
  intros Hu Hr. rewrite unite_nonempty by assumption.
  apply IntRect_isEmpty_false in Hu, Hr.
  unfold IntRect.encloses, IntRect.contains, IntRect.maxX, IntRect.maxY. simpl.
  split; [intros px py Hc; lia |]. split; [intros px py Hc; lia |].
  intros b Hbu Hbr px py Hc.
  pose proof (Hbu (IntRect.x u) (IntRect.y u)).
  pose proof (Hbu (IntRect.x u + IntRect.width u - 1) (IntRect.y u + IntRect.height u - 1)).
  pose proof (Hbr (IntRect.x r) (IntRect.y r)).
  pose proof (Hbr (IntRect.x r + IntRect.width r - 1) (IntRect.y r + IntRect.height r - 1)).
  lia.
Qed.

(** *** Invalidation *)

Lemma invalidated_app l1 l2 : invalidated (l1 ++ l2) = invalidated l1 ++ invalidated l2.
Proof. unfold invalidated. apply flat_map_app. Qed.

Lemma inval_gate r w : m_baseLayerUpdate (inval r w) = m_baseLayerUpdate w.
Proof. unfold inval. frame. Qed.

Lemma inval_baseLayer r w : m_baseLayer (inval r w) = m_baseLayer w.
Proof. unfold inval. frame. Qed.

Lemma inval_currentBaseLayer r w : m_currentBaseLayer (inval r w) = m_currentBaseLayer w.
Proof. unfold inval. frame. Qed.

Lemma inval_displayRings r w : m_displayRings (inval r w) = m_displayRings w.
Proof. unfold inval. frame. Qed.

Lemma inval_lastInval r w : m_lastInval (inval r w) = m_lastInval w.
Proof. unfold inval. frame. Qed.

Lemma inval_usePageA r w : m_usePageA (inval r w) = m_usePageA w.
Proof. unfold inval. frame. Qed.

Lemma inval_events_grow r w : exists rest, events (inval r w) = events w ++ rest.
Proof.
  unfold inval, call. destruct (m_baseLayerUpdate w); simpl.
  - destruct (IntRect.isEmpty r); simpl.
    + eexists. reflexivity.
    + destruct (IntRect.isEmpty (m_frameworkInval w)); simpl;
        rewrite <- app_assoc; eexists; reflexivity.
  - eexists. reflexivity.
Qed.

(** Unlocked, [inval] unites the rectangle into the base-content union (an
    empty rectangle is not merged, and an empty union adopts the
    rectangle: that is what [IntRect::unite] does in these two cases). *)
Lemma inval_frameworkInval r w :
  m_frameworkInval (inval r w)
  = if m_baseLayerUpdate w then IntRect.unite (m_frameworkInval w) r else m_frameworkInval w.
Proof.
  unfold inval. destruct (m_baseLayerUpdate w); simpl; [| reflexivity].
  unfold IntRect.unite.
  destruct (IntRect.isEmpty r); simpl; [reflexivity |].
  destruct (IntRect.isEmpty (m_frameworkInval w)); reflexivity.
Qed.

Lemma inval_pending r w :
  m_invalidateRegion (inval r w)
  = if m_baseLayerUpdate w then m_invalidateRegion w
    else rgn_union (m_invalidateRegion w) (IntRect_to_SkIRect r).
Proof. unfold inval. frame. Qed.

Lemma inval_invalidated r w :
  invalidated (events (inval r w))
  = invalidated (events w)
    ++ (if m_baseLayerUpdate w && negb (IntRect.isEmpty r) then [r] else []).
Proof.
  unfold inval, call. destruct (m_baseLayerUpdate w); simpl.
  - destruct (IntRect.isEmpty r); simpl.
    + rewrite invalidated_app. reflexivity.
    + destruct (IntRect.isEmpty (m_frameworkInval w)); simpl;
        rewrite !invalidated_app; simpl; rewrite app_nil_r; reflexivity.
  - rewrite invalidated_app. reflexivity.
Qed.

Lemma invalRects_cons q l w :
  invalRects (q :: l) w = invalRects l (inval (SkIRect.to_IntRect q) w).
Proof. reflexivity. Qed.

Lemma invalRects_keeps {B : Type} (obs : World -> B) l :
  (forall r w, obs (inval r w) = obs w) -> forall w, obs (invalRects l w) = obs w.
Proof. intros Hobs. apply fold_left_keeps. intros. apply Hobs. Qed.

Lemma invalRects_events_grow l : forall w, exists rest, events (invalRects l w) = events w ++ rest.
Proof.
  induction l as [| q l IH]; intros w.
  - exists []. rewrite app_nil_r. reflexivity.
  - destruct (IH (inval (SkIRect.to_IntRect q) w)) as [rest2 E2].
    destruct (inval_events_grow (SkIRect.to_IntRect q) w) as [rest1 E1].
    exists (rest1 ++ rest2). rewrite invalRects_cons, E2, E1, app_assoc. reflexivity.
Qed.

Lemma to_IntRect_nonempty q :
  SkIRect.isEmpty q = false -> IntRect.isEmpty (SkIRect.to_IntRect q) = false.
Proof.
  unfold SkIRect.isEmpty. rewrite orb_false_iff, !Z.leb_gt. intros [Hw Hh].
  apply IntRect_isEmpty_false.
  unfold SkIRect.to_IntRect, SkIRect.width, SkIRect.height. simpl. lia.
Qed.

Lemma to_IntRect_contains q px py :
  IntRect.contains (SkIRect.to_IntRect q) px py <-> SkIRect.contains q px py.
Proof.
  unfold IntRect.contains, SkIRect.contains, IntRect.maxX, IntRect.maxY,
    SkIRect.to_IntRect, SkIRect.width, SkIRect.height. simpl. lia.
Qed.

Lemma to_SkIRect_contains q px py :
  SkIRect.contains (IntRect_to_SkIRect (SkIRect.to_IntRect q)) px py <-> SkIRect.contains q px py.
Proof.
  unfold SkIRect.contains, IntRect_to_SkIRect, IntRect.maxX, IntRect.maxY,
    SkIRect.to_IntRect, SkIRect.width, SkIRect.height. simpl. lia.
Qed.

(** Unlocked, the loop hands every rectangle to the front page and unites
    it into the base-content union; the pending region is not touched. *)
Lemma invalRects_unlocked l : forall w,
  m_baseLayerUpdate w = true ->
  (forall q, In q l -> SkIRect.isEmpty q = false) ->
  m_frameworkInval (invalRects l w)
  = fold_left IntRect.unite (map SkIRect.to_IntRect l) (m_frameworkInval w) /\
  invalidated (events (invalRects l w))
  = invalidated (events w) ++ map SkIRect.to_IntRect l /\
  m_invalidateRegion (invalRects l w) = m_invalidateRegion w.
Proof.
  induction l as [| q l IH]; intros w Hu Hne.
  - simpl. rewrite app_nil_r. repeat split.
  - destruct (IH (inval (SkIRect.to_IntRect q) w)) as (Hf & Hi & Hp).
    + rewrite inval_gate. exact Hu.
    + intros q' Hq'. apply Hne. right. exact Hq'.
    + rewrite invalRects_cons, Hf, Hi, Hp.
      rewrite inval_frameworkInval, inval_invalidated, inval_pending, Hu.
      rewrite to_IntRect_nonempty by (apply Hne; left; reflexivity).
      simpl. rewrite <- app_assoc. repeat split.
Qed.

(** Locked, the loop only adds the pixels of the rectangles to the pending
    region. *)
Lemma invalRects_locked l : forall w,
  m_baseLayerUpdate w = false ->
  m_frameworkInval (invalRects l w) = m_frameworkInval w /\
  invalidated (events (invalRects l w)) = invalidated (events w) /\
  forall px py,
    rgn_contains (m_invalidateRegion (invalRects l w)) px py <->
    rgn_contains (m_invalidateRegion w) px py
    \/ exists q, In q l /\ SkIRect.contains q px py.
Proof.
  induction l as [| q l IH]; intros w Hl.
  - simpl. repeat split; try tauto. intros [Hc | (q & [] & _)]. exact Hc.
  - destruct (IH (inval (SkIRect.to_IntRect q) w)) as (Hf & Hi & Hp).
    + rewrite inval_gate. exact Hl.
    + rewrite invalRects_cons, Hf, Hi.
      rewrite inval_frameworkInval, inval_invalidated, Hl. simpl. rewrite app_nil_r.
      split; [reflexivity |]. split; [reflexivity |].
      intros px py. rewrite Hp, inval_pending, Hl.
      unfold rgn_contains at 1. rewrite rgn_rects_union, to_SkIRect_contains.
      fold (rgn_contains (m_invalidateRegion w) px py).
      split.
      * intros [[Hc | Hc] | (q' & Hin & Hc)].
        -- left. exact Hc.
        -- right. exists q. split; [left; reflexivity | exact Hc].
        -- right. exists q'. split; [right; exact Hin | exact Hc].
      * intros [Hc | (q' & [<- | Hin] & Hc)].
        -- left. left. exact Hc.
        -- left. right. exact Hc.
        -- right. exists q'. split; assumption.
Qed.

(** C8, as the code has it: while the gate is unlocked, [inval] of a
    non-empty rectangle into an empty base-content union leaves exactly that
    rectangle, and an empty rectangle is not merged; a second non-empty
    rectangle extends the union to the smallest rectangle enclosing both;
    and two rectangles, merged in either order into any union, leave the
    same union. *)
Theorem base_union_merge w r1 r2 :
  m_baseLayerUpdate w = true ->
  IntRect.isEmpty (m_frameworkInval w) = true ->
  (IntRect.isEmpty r1 = false -> m_frameworkInval (inval r1 w) = r1) /\
  (IntRect.isEmpty r1 = true -> m_frameworkInval (inval r1 w) = m_frameworkInval w) /\
  (IntRect.isEmpty r1 = false -> IntRect.isEmpty r2 = false ->
   let u := m_frameworkInval (inval r2 (inval r1 w)) in
   IntRect.encloses u r1 /\ IntRect.encloses u r2 /\
   forall b, IntRect.encloses b r1 -> IntRect.encloses b r2 -> IntRect.encloses b u) /\
  (forall v a b,
     m_frameworkInval (inval b (inval a v)) = m_frameworkInval (inval a (inval b v))).
Proof.
  intros Hu He.
  assert (Hfirst : forall r, IntRect.isEmpty r = false -> m_frameworkInval (inval r w) = r).
  { intros r Hr. rewrite inval_frameworkInval, Hu. unfold IntRect.unite.
    rewrite Hr, He. reflexivity. }
  split; [apply Hfirst |].
  split.
  { intros Hr. rewrite inval_frameworkInval, Hu. unfold IntRect.unite.
    rewrite Hr. reflexivity. }
  split.
  { intros H1 H2. cbv zeta.
    rewrite inval_frameworkInval, inval_gate, Hu, (Hfirst r1 H1).
    apply unite_smallest; assumption. }
  intros v a b. rewrite !inval_frameworkInval, !inval_gate.
  destruct (m_baseLayerUpdate v); [apply unite_swap | reflexivity].
Qed.

(** *** The gate of the base layer *)

Lemma invalRegion_rects region w : invalRegion region w = invalRects (rgn_rects region) w.
Proof. reflexivity. Qed.

Lemma store_first_layout layer w :
  let w' := setBaseLayer_store layer true w in
  m_baseLayerUpdate w' = true /\ m_baseLayer w' = layer /\ m_currentBaseLayer w' = layer /\
  m_invalidateRegion w' = rgn_empty /\ m_displayRings w' = false /\
  exists rest,
    events w'
    = events w
      ++ TiledPage_discardTextures (m_tiledPageA w)
         :: TiledPage_discardTextures (m_tiledPageB w) :: rest.
Proof.
  unfold setBaseLayer_store, call. rewrite orb_true_r. simpl.
  destruct layer as [l |]; simpl; destruct (m_baseLayer w) as [old |]; simpl;
    repeat (split; [reflexivity |]); rewrite <- ?app_assoc; simpl;
    eexists; reflexivity.
Qed.

(** C3, as the code has it: a [setBaseLayer] call with the flag of a first
    layout leaves the gate unlocked ([m_baseLayerUpdate] is set to true, so
    the layer supplied becomes the current one at once), makes both tiled
    pages discard their textures, leaves the pending dirty region empty and
    clears the display of the rings. *)
Theorem setBaseLayer_first_layout w layer region show :
  let w' := setBaseLayer layer region show true w in
  m_baseLayerUpdate w' = true /\
  m_baseLayer w' = layer /\
  m_currentBaseLayer w' = layer /\
  m_invalidateRegion w' = rgn_empty /\
  m_displayRings w' = false /\
  exists rest,
    events w'
    = events w
      ++ TiledPage_discardTextures (m_tiledPageA w)
         :: TiledPage_discardTextures (m_tiledPageB w) :: rest.
Proof.
  destruct (store_first_layout layer w) as (Hg & Hb & Hc & Hp & Hd & rest & He).
  unfold setBaseLayer. cbv zeta. rewrite invalRegion_rects.
  set (w1 := setBaseLayer_store layer true w) in *.
  destruct (invalRects_unlocked (rgn_rects region) w1 Hg) as (_ & _ & Hp').
  { intros q Hq. eapply rgn_rects_nonempty; eassumption. }
  destruct (invalRects_events_grow (rgn_rects region) w1) as [rest' He'].
  change (m_baseLayerUpdate (call ?e ?v)) with (m_baseLayerUpdate v).
  change (m_baseLayer (call ?e ?v)) with (m_baseLayer v).
  change (m_currentBaseLayer (call ?e ?v)) with (m_currentBaseLayer v).
  change (m_invalidateRegion (call ?e ?v)) with (m_invalidateRegion v).
  change (m_displayRings (call ?e ?v)) with (m_displayRings v).
  rewrite (invalRects_keeps m_baseLayerUpdate) by apply inval_gate.
  rewrite (invalRects_keeps m_baseLayer) by apply inval_baseLayer.
  rewrite (invalRects_keeps m_currentBaseLayer) by apply inval_currentBaseLayer.
  rewrite (invalRects_keeps m_displayRings) by apply inval_displayRings.
  rewrite Hp', Hp.
  repeat (split; [assumption || reflexivity |]).
  unfold call. simpl. rewrite He', He. rewrite <- !app_assoc. simpl.
  eexists. reflexivity.
Qed.

Lemma store_locked layer w :
  m_baseLayerUpdate w = false ->
  let w' := setBaseLayer_store layer false w in
  m_baseLayerUpdate w' = false /\ m_currentBaseLayer w' = m_currentBaseLayer w /\
  m_baseLayer w' = layer /\ m_frameworkInval w' = m_frameworkInval w /\
  invalidated (events w') = invalidated (events w) /\
  m_invalidateRegion w' = m_invalidateRegion w.
Proof.
  intros Hl. cbv zeta. unfold setBaseLayer_store, call. rewrite orb_false_r. simpl.
  destruct layer as [l |]; simpl; destruct (m_baseLayer w) as [old |]; simpl;
    rewrite Hl; simpl; rewrite ?invalidated_app; simpl; rewrite ?app_nil_r;
    repeat split; exact Hl.
Qed.

Lemma setBaseLayer_locked layer region show w :
  m_baseLayerUpdate w = false ->
  let w' := setBaseLayer layer region show false w in
  m_baseLayerUpdate w' = false /\ m_currentBaseLayer w' = m_currentBaseLayer w /\
  m_baseLayer w' = layer /\ m_frameworkInval w' = m_frameworkInval w /\
  invalidated (events w') = invalidated (events w) /\
  forall px py,
    rgn_contains (m_invalidateRegion w') px py <->
    rgn_contains (m_invalidateRegion w) px py \/ rgn_contains region px py.
Proof.
  intros Hl. destruct (store_locked layer w Hl) as (Hg & Hc & Hb & Hf & Hi & Hp).
  unfold setBaseLayer. cbv zeta. rewrite invalRegion_rects.
  set (w1 := setBaseLayer_store layer false w) in *.
  destruct (invalRects_locked (rgn_rects region) w1 Hg) as (Hf' & Hi' & Hp').
  change (m_baseLayerUpdate (call ?e ?v)) with (m_baseLayerUpdate v).
  change (m_baseLayer (call ?e ?v)) with (m_baseLayer v).
  change (m_currentBaseLayer (call ?e ?v)) with (m_currentBaseLayer v).
  change (m_invalidateRegion (call ?e ?v)) with (m_invalidateRegion v).
  change (m_frameworkInval (call ?e ?v)) with (m_frameworkInval v).
  rewrite (invalRects_keeps m_baseLayerUpdate) by apply inval_gate.
  rewrite (invalRects_keeps m_baseLayer) by apply inval_baseLayer.
  rewrite (invalRects_keeps m_currentBaseLayer) by apply inval_currentBaseLayer.
  rewrite Hf', Hf, Hc, Hb, Hg.
  repeat (split; [reflexivity |]).
  split.
  - unfold call. simpl. rewrite invalidated_app, Hi', Hi. simpl. apply app_nil_r.
  - intros px py. rewrite Hp', Hp. reflexivity.
Qed.

Lemma last_cons {A : Type} (a d : A) l : List.last (a :: l) d = List.last l a.
Proof.
  revert a d. induction l as [| b l IH]; intros a d; [reflexivity |].
  change (List.last (a :: b :: l) d) with (List.last (b :: l) d). rewrite !IH. reflexivity.
Qed.

Lemma setBaseLayers_locked calls : forall w,
  m_baseLayerUpdate w = false ->
  let wl := setBaseLayers calls w in
  m_baseLayerUpdate wl = false /\ m_currentBaseLayer wl = m_currentBaseLayer w /\
  m_baseLayer wl = List.last (map bc_layer calls) (m_baseLayer w) /\
  m_frameworkInval wl = m_frameworkInval w /\
  invalidated (events wl) = invalidated (events w) /\
  forall px py,
    rgn_contains (m_invalidateRegion wl) px py <->
    rgn_contains (m_invalidateRegion w) px py
    \/ exists c, In c calls /\ rgn_contains (bc_inval c) px py.
Proof.
  induction calls as [| c calls IH]; intros w Hl.
  - cbv zeta. simpl. rewrite Hl. repeat (split; [reflexivity |]).
    intros px py. split; [tauto |].
    intros [Hc | (c & [] & _)]. exact Hc.
  - destruct (setBaseLayer_locked (bc_layer c) (bc_inval c) (bc_showVisualIndicator c) w Hl)
      as (Hg & Hc & Hb & Hf & Hi & Hp).
    destruct (IH _ Hg) as (Hg' & Hc' & Hb' & Hf' & Hi' & Hp').
    change (setBaseLayers (c :: calls) w)
      with (setBaseLayers calls
              (setBaseLayer (bc_layer c) (bc_inval c) (bc_showVisualIndicator c) false w)).
    cbv zeta. rewrite Hg', Hc', Hb', Hf', Hi', Hc, Hb, Hf, Hi.
    repeat (split; [reflexivity |]).
    split; [simpl map; rewrite last_cons; reflexivity |].
    repeat (split; [reflexivity |]).
    intros px py. rewrite Hp', Hp. split.
    + intros [[Hx | Hx] | (c' & Hin & Hx)].
      * left. exact Hx.
      * right. exists c. split; [left; reflexivity | exact Hx].
      * right. exists c'. split; [right; exact Hin | exact Hx].
    + intros [Hx | (c' & [<- | Hin] & Hx)].
      * left. left. exact Hx.
      * left. right. exact Hx.
      * right. exists c'. split; assumption.
Qed.

Lemma unlock_unlocked w : m_baseLayerUpdate w = true -> unlockBaseLayerUpdate w = w.
Proof. intros Hu. unfold unlockBaseLayerUpdate. rewrite Hu. reflexivity. Qed.

Lemma unlock_locked w :
  m_baseLayerUpdate w = false ->
  let wu := unlockBaseLayerUpdate w in
  let flushed := map SkIRect.to_IntRect (rgn_rects (m_invalidateRegion w)) in
  m_baseLayerUpdate wu = true /\ m_currentBaseLayer wu = m_baseLayer w /\
  m_invalidateRegion wu = rgn_empty /\
  invalidated (events wu) = invalidated (events w) ++ flushed /\
  m_frameworkInval wu = fold_left IntRect.unite flushed (m_frameworkInval w).
Proof.
  intros Hl. unfold unlockBaseLayerUpdate. rewrite Hl. cbv zeta.
  rewrite invalRegion_rects.
  set (w1 := set_m_currentBaseLayer _ _).
  assert (Hg : m_baseLayerUpdate w1 = true) by reflexivity.
  destruct (invalRects_unlocked (rgn_rects (m_invalidateRegion w1)) w1 Hg) as (Hf & Hi & _).
  { intros q Hq. eapply rgn_rects_nonempty; eassumption. }
  change (m_baseLayerUpdate (set_m_invalidateRegion ?g ?v)) with (m_baseLayerUpdate v).
  change (m_currentBaseLayer (set_m_invalidateRegion ?g ?v)) with (m_currentBaseLayer v).
  change (m_frameworkInval (set_m_invalidateRegion ?g ?v)) with (m_frameworkInval v).
  change (events (set_m_invalidateRegion ?g ?v)) with (events v).
  rewrite (invalRects_keeps m_baseLayerUpdate) by apply inval_gate.
  rewrite (invalRects_keeps m_currentBaseLayer) by apply inval_currentBaseLayer.
  rewrite Hf, Hi. repeat split.
Qed.

(** C2, as the code has it: from a locked gate, any run of [setBaseLayer]
    calls without the flag of a first layout keeps the gate locked and the
    current layer, makes the layer of the last call the latest one, and
    hands nothing to the live invalidation path; the pending region grows
    by the regions of the calls.  [unlockBaseLayerUpdate] then makes the
    latest layer the current one, hands rectangles to the front page that
    cover exactly the pending region, unites them into the base-content
    union, and leaves the pending region empty.  On an unlocked gate
    [unlockBaseLayerUpdate] changes nothing. *)
Theorem locked_gate_defers w calls :
  m_baseLayerUpdate w = false ->
  let wl := setBaseLayers calls w in
  let wu := unlockBaseLayerUpdate wl in
  (m_baseLayerUpdate wl = false /\
   m_currentBaseLayer wl = m_currentBaseLayer w /\
   m_baseLayer wl = List.last (map bc_layer calls) (m_baseLayer w) /\
   m_frameworkInval wl = m_frameworkInval w /\
   invalidated (events wl) = invalidated (events w)) /\
  (m_baseLayerUpdate wu = true /\
   m_currentBaseLayer wu = List.last (map bc_layer calls) (m_baseLayer w) /\
   m_invalidateRegion wu = rgn_empty /\
   exists flushed,
     invalidated (events wu) = invalidated (events w) ++ flushed /\
     m_frameworkInval wu = fold_left IntRect.unite flushed (m_frameworkInval w) /\
     forall px py,
       (exists r, In r flushed /\ IntRect.contains r px py) <->
       rgn_contains (m_invalidateRegion w) px py
       \/ exists c, In c calls /\ rgn_contains (bc_inval c) px py) /\
  (forall v, m_baseLayerUpdate v = true -> unlockBaseLayerUpdate v = v) /\
  unlockBaseLayerUpdate wu = wu.
Proof.
  intros Hl. cbv zeta.
  destruct (setBaseLayers_locked calls w Hl) as (Hg & Hc & Hb & Hf & Hi & Hp).
  destruct (unlock_locked _ Hg) as (Hg' & Hc' & Hp' & Hi' & Hf').
  split; [repeat split; assumption |].
  split.
  - split; [exact Hg' |]. split; [rewrite Hc'; exact Hb |]. split; [exact Hp' |].
    eexists. split; [rewrite Hi', Hi; reflexivity |].
    split; [rewrite Hf', Hf; reflexivity |].
    intros px py. rewrite <- Hp. unfold rgn_contains. split.
    + intros (r & Hin & Hx). apply in_map_iff in Hin. destruct Hin as (q & <- & Hin).
      exists q. split; [exact Hin | apply to_IntRect_contains; exact Hx].
    + intros (q & Hin & Hx). exists (SkIRect.to_IntRect q).
      split; [apply in_map; exact Hin | apply to_IntRect_contains; exact Hx].
  - split; [exact unlock_unlocked |]. apply unlock_unlocked. exact Hg'.
Qed.

(** C7: [setExtra] on a locked gate returns the state it was given; on an
    unlocked gate, with the rectangle of the last call and [allowSame]
    false, it only hands the picture to the layer: nothing is invalidated;
    otherwise the new rectangle and the previous one, each if not empty, go
    through [inval] one after the other (to the front page and into the
    base-content union), the new rectangle is remembered and the display of
    the rings is cleared. *)
Theorem setExtra_gate_and_diff w layer picture rect allowSame :
  let w' := setExtra layer picture rect allowSame w in
  (m_baseLayerUpdate w = false -> w' = w) /\
  (m_baseLayerUpdate w = true -> allowSame = false -> m_lastInval w = rect ->
   w' = call (BaseLayer_setExtra layer picture) w /\
   invalidated (events w') = invalidated (events w) /\
   m_frameworkInval w' = m_frameworkInval w /\
   m_currentPictureCounter w' = m_currentPictureCounter w) /\
  (m_baseLayerUpdate w = true -> allowSame = true \/ m_lastInval w <> rect ->
   invalidated (events w')
   = invalidated (events w)
     ++ (if IntRect.isEmpty rect then [] else [rect])
     ++ (if IntRect.isEmpty (m_lastInval w) then [] else [m_lastInval w]) /\
   m_frameworkInval w'
   = IntRect.unite (IntRect.unite (m_frameworkInval w) rect) (m_lastInval w) /\
   m_lastInval w' = rect /\
   m_displayRings w' = false).
Proof.
  cbv zeta. unfold setExtra. split; [| split].
  - intros Hl. rewrite Hl. reflexivity.
  - intros Hu -> Hsame. rewrite Hu. simpl.
    assert (E : IntRect.eqb (m_lastInval w) rect = true) by (apply IntRect_eqb_eq; exact Hsame).
    rewrite E. unfold call. simpl. rewrite invalidated_app. simpl.
    rewrite app_nil_r. repeat split.
  - intros Hu Hdiff. rewrite Hu. change (negb true) with false. cbv iota zeta.
    assert (E : negb allowSame && IntRect.eqb (m_lastInval w) rect = false).
    { destruct Hdiff as [-> | Hne]; [reflexivity |].
      apply andb_false_iff. right. apply not_true_is_false.
      intros Heq. apply Hne. apply IntRect_eqb_eq. exact Heq. }
    set (w1 := call (BaseLayer_setExtra layer picture) w).
    assert (Hu1 : m_baseLayerUpdate w1 = true) by exact Hu.
    assert (Hi1 : invalidated (events w1) = invalidated (events w)).
    { unfold w1, call. simpl. rewrite invalidated_app. simpl. apply app_nil_r. }
    assert (Hl1 : m_lastInval w1 = m_lastInval w) by reflexivity.
    assert (Hf1 : m_frameworkInval w1 = m_frameworkInval w) by reflexivity.
    rewrite Hl1, E.
    change (m_lastInval (set_m_displayRings ?b (set_m_lastInval ?r ?v))) with r.
    change (m_displayRings (set_m_displayRings ?b ?v)) with b.
    change (m_frameworkInval (set_m_displayRings ?b (set_m_lastInval ?r ?v)))
      with (m_frameworkInval v).
    change (events (set_m_displayRings ?b (set_m_lastInval ?r ?v))) with (events v).
    destruct (IntRect.isEmpty rect) eqn:Hr;
      change (negb true) with false; change (negb false) with true; cbv iota;
      rewrite ?inval_lastInval, Hl1;
      destruct (IntRect.isEmpty (m_lastInval w)) eqn:Hp;
      change (negb true) with false; change (negb false) with true; cbv iota;
      rewrite ?inval_frameworkInval, ?inval_invalidated, ?inval_gate, ?Hu1, ?Hi1, ?Hf1,
        ?Hr, ?Hp; simpl.
    + rewrite !unite_empty_r by assumption.
      split; [symmetry; apply app_nil_r | repeat split].
    + rewrite (unite_empty_r _ rect) by assumption. repeat split.
    + rewrite (unite_empty_r _ (m_lastInval w)) by assumption. repeat split.
    + split; [symmetry; apply (app_assoc _ [rect] [m_lastInval w]) | repeat split].
Qed.

(** *** Floating point *)

Lemma digits2_pos_bounds m :
  2 ^ (Zpos (digits2_pos m) - 1) <= Zpos m < 2 ^ Zpos (digits2_pos m).
Proof.
  induction m as [p IH | p IH |]; simpl digits2_pos.
  - rewrite Pos2Z.inj_succ.
    replace (Z.succ (Z.pos (digits2_pos p)) - 1) with (Z.succ (Z.pos (digits2_pos p) - 1)) by lia.
    rewrite !Z.pow_succ_r by lia. lia.
  - rewrite Pos2Z.inj_succ.
    replace (Z.succ (Z.pos (digits2_pos p)) - 1) with (Z.succ (Z.pos (digits2_pos p) - 1)) by lia.
    rewrite !Z.pow_succ_r by lia. lia.
  - simpl. lia.
Qed.

Lemma iter_xO_value m k : Zpos (Pos.iter xO m k) = Zpos m * 2 ^ Zpos k.
Proof.
  induction k as [| k IH] using Pos.peano_ind.
  - simpl. lia.
  - rewrite Pos.iter_succ, Pos2Z.inj_succ, Z.pow_succ_r by lia.
    rewrite Pos2Z.inj_xO, IH. lia.
Qed.

Lemma iter_xO_digits m k : digits2_pos (Pos.iter xO m k) = (digits2_pos m + k)%positive.
Proof.
  induction k as [| k IH] using Pos.peano_ind.
  - simpl. lia.
  - rewrite Pos.iter_succ. simpl digits2_pos. rewrite IH. lia.
Qed.

Lemma valid_bounds m e :
  F32.valid m e = true ->
  -149 <= e <= 104 /\ 1 <= Zpos (digits2_pos m) <= 24 /\
  (Zpos (digits2_pos m) = 24 \/ e = -149).
Proof.
  unfold F32.valid, F32.prec, F32.emax, bounded, canonical_mantissa, fexp, emin.
  rewrite andb_true_iff, Z.eqb_eq, Z.leb_le. lia.
Qed.

Lemma binary_round_aux_exact s mz ez :
  Zdigits2 (Zpos mz) = 53 -> -1074 <= ez <= 971 ->
  binary_round_aux 53 1024 s (Zpos mz) ez loc_Exact = S754_finite s mz ez.
Proof.
  intros Hdig He.
  assert (Hf : fexp 53 1024 (53 + ez) = ez) by (unfold fexp, emin; lia).
  unfold binary_round_aux, shr_fexp.
  rewrite Hdig, Hf, Z.sub_diag.
  cbn [shr shr_record_of_loc shr_m loc_of_shr_record round_nearest_even].
  rewrite Hdig, Hf, Z.sub_diag.
  cbn [shr shr_record_of_loc shr_m loc_of_shr_record round_nearest_even].
  replace (ez <=? 1024 - 53) with true by (symmetry; apply Z.leb_le; lia).
  reflexivity.
Qed.

Lemma to_double_finite s m e :
  F32.valid m e = true ->
  F32.to_double (S754_finite s m e)
  = S754_finite s (Pos.iter xO m (Z.to_pos (53 - Zpos (digits2_pos m))))
      (e + Zpos (digits2_pos m) - 53).
Proof.
  intros Hb. apply valid_bounds in Hb. destruct Hb as (He & Hd & _).
  unfold F32.to_double, binary_round.
  set (d := Zpos (digits2_pos m)) in *.
  assert (Hf : fexp 53 1024 (d + e) = e + d - 53) by (unfold fexp, emin; lia).
  rewrite Hf. unfold shl_align.
  destruct (e + d - 53 - e) as [| q | q] eqn:Hq; try lia.
  assert (Eq : q = Z.to_pos (53 - d)) by lia. subst q. clear Hq.
  apply binary_round_aux_exact; [| lia].
  unfold Zdigits2. rewrite iter_xO_digits. fold d. lia.
Qed.

Ltac numeral t := let v := eval vm_compute in t in change t with v in *.

Lemma pow2_split a b : 0 <= a -> 0 <= b -> 2 ^ (a + b) = 2 ^ a * 2 ^ b.
Proof. intros. apply Z.pow_add_r; assumption. Qed.

Lemma compare_cont_eq a b : Pos.compare_cont Eq a b = Pos.compare a b.
Proof. reflexivity. Qed.

Lemma compare_cont_lt a b : Pos.compare_cont Eq a b = Lt <-> (Zpos a < Zpos b).
Proof. change (Pos.compare_cont Eq a b) with (Pos.compare a b). rewrite Pos.compare_lt_iff. lia. Qed.

Lemma tenth_cut M : 10 * (Zpos M * 2 ^ 93) < 2 ^ 149 <-> Zpos M < 7205759403792794.
Proof. numeral (2 ^ 93). numeral (2 ^ 149). lia. Qed.

Lemma ten_cut m : 10 * 2 ^ 149 < Zpos m * 2 ^ 129 <-> 10485760 < Zpos m.
Proof. numeral (2 ^ 129). numeral (2 ^ 149). lia. Qed.

Lemma product_below (m D P bound : Z) :
  0 < P -> 0 < m < D -> D * P <= bound -> m * P < bound.
Proof. intros. nia. Qed.

Lemma product_above (m L P bound : Z) :
  0 < P -> 0 < L <= m -> bound <= L * P -> bound <= m * P.
Proof. intros. nia. Qed.

Lemma below_tenth m e :
  F32.valid m e = true ->
  SFltb (F32.to_double (S754_finite false m e)) MIN_SCALE_WARNING = true
  <-> 10 * (Zpos m * 2 ^ (e + 149)) < 2 ^ 149.
Proof.
  intros Hb. rewrite to_double_finite by exact Hb.
  apply valid_bounds in Hb. destruct Hb as (He & Hd & Hn).
  pose proof (digits2_pos_bounds m) as Hm.
  set (d := Zpos (digits2_pos m)) in *.
  set (k := Z.to_pos (53 - d)).
  pose proof (iter_xO_value m k) as HM.
  assert (Hk : Zpos k = 53 - d) by (unfold k; lia).
  rewrite Hk in HM.
  set (M := Pos.iter xO m k) in *.
  set (P := 2 ^ (e + 149)).
  assert (HP : 0 < P) by (apply Z.pow_pos_nonneg; lia).
  assert (Hlo : 2 ^ (d - 1 + (e + 149)) = 2 ^ (d - 1) * P) by (apply pow2_split; lia).
  assert (Hhi : 2 ^ (d + (e + 149)) = 2 ^ d * P) by (apply pow2_split; lia).
  assert (Hpos : 0 < 2 ^ (d - 1)) by (apply Z.pow_pos_nonneg; lia).
  unfold SFltb, SFcompare, MIN_SCALE_WARNING.
  destruct (Z.compare (e + d - 53) (-56)) eqn:Hc.
  - apply Z.compare_eq in Hc.
    assert (HU : Zpos m * P = Zpos M * 2 ^ 93).
    { rewrite HM. unfold P. replace (e + 149) with (53 - d + 93) by lia.
      rewrite pow2_split by lia. ring. }
    rewrite HU, compare_cont_eq, tenth_cut.
    destruct (Pos.compare_spec M 7205759403792794) as [Heq | Hlt | Hgt].
    + split; [discriminate |]. rewrite Heq. intros Habs. exfalso. revert Habs. apply Z.lt_irrefl.
    + split; [intros _; apply Pos2Z.pos_lt_pos; exact Hlt | reflexivity].
    + split; [discriminate |]. intros Habs. exfalso.
      apply Pos2Z.pos_lt_pos in Hgt. revert Habs Hgt. apply Z.lt_asymm.
  - change (e + d - 53 < -56) in Hc. split; [intros _ | reflexivity].
    assert (Hb145 : 2 ^ (d + (e + 149)) <= 2 ^ 145) by (apply Z.pow_le_mono_r; lia).
    rewrite Hhi in Hb145.
    assert (Hprod : Zpos m * P < 2 ^ 145).
    { apply (product_below _ (2 ^ d)); [exact HP | split; [apply Pos2Z.is_pos | apply Hm] | exact Hb145]. }
    revert Hprod. generalize (Zpos m * P). clear. intros z.
    numeral (2 ^ 145). numeral (2 ^ 149). lia.
  - change (e + d - 53 > -56) in Hc. split; [discriminate |]. intros Hlt. exfalso.
    assert (Hb146 : 2 ^ 146 <= 2 ^ (d - 1 + (e + 149))) by (apply Z.pow_le_mono_r; lia).
    rewrite Hlo in Hb146.
    assert (Hprod : 2 ^ 146 <= Zpos m * P).
    { apply (product_above _ (2 ^ (d - 1))); [exact HP | split; [exact Hpos | apply Hm] | exact Hb146]. }
    revert Hprod Hlt. generalize (Zpos m * P). clear. intros z.
    numeral (2 ^ 146). numeral (2 ^ 149). lia.
Qed.

Lemma above_ten m e :
  F32.valid m e = true ->
  F32.ltb (F32.of_int MAX_SCALE_WARNING) (S754_finite false m e) = true
  <-> 10 * 2 ^ 149 < Zpos m * 2 ^ (e + 149).
Proof.
  intros Hb. apply valid_bounds in Hb. destruct Hb as (He & Hd & Hn).
  pose proof (digits2_pos_bounds m) as Hm.
  set (d := Zpos (digits2_pos m)) in *.
  change (F32.of_int MAX_SCALE_WARNING) with (S754_finite false 10485760 (-20)).
  unfold F32.ltb, SFltb, SFcompare.
  destruct (Z.compare (-20) e) eqn:Hc.
  - apply Z.compare_eq in Hc. subst e.
    change (-20 + 149) with 129. rewrite compare_cont_eq, ten_cut.
    destruct (Pos.compare_spec 10485760 m) as [Heq | Hlt | Hgt].
    + split; [discriminate |]. rewrite Heq. intros Habs. exfalso. revert Habs. apply Z.lt_irrefl.
    + split; [intros _; apply Pos2Z.pos_lt_pos; exact Hlt | reflexivity].
    + split; [discriminate |]. intros Habs. exfalso.
      apply Pos2Z.pos_lt_pos in Hgt. revert Habs Hgt. apply Z.lt_asymm.
  - change (-20 < e) in Hc. split; [intros _ | reflexivity].
    set (P := 2 ^ (e + 149)).
    assert (HP : 0 < P) by (apply Z.pow_pos_nonneg; lia).
    assert (Hlo : 2 ^ (d - 1 + (e + 149)) = 2 ^ (d - 1) * P) by (apply pow2_split; lia).
    assert (Hpos : 0 < 2 ^ (d - 1)) by (apply Z.pow_pos_nonneg; lia).
    assert (Hd24 : d = 24) by lia.
    assert (Hb153 : 2 ^ 153 <= 2 ^ (d - 1 + (e + 149))) by (apply Z.pow_le_mono_r; lia).
    rewrite Hlo in Hb153.
    assert (Hprod : 2 ^ 153 <= Zpos m * P).
    { apply (product_above _ (2 ^ (d - 1))); [exact HP | split; [exact Hpos | apply Hm] | exact Hb153]. }
    revert Hprod. generalize (Zpos m * P). clear. intros z.
    numeral (2 ^ 153). numeral (2 ^ 149). lia.
  - change (-20 > e) in Hc. split; [discriminate |]. intros Hlt. exfalso.
    set (P := 2 ^ (e + 149)) in *.
    assert (HP : 0 < P) by (apply Z.pow_pos_nonneg; lia).
    assert (Hhi : 2 ^ (d + (e + 149)) = 2 ^ d * P) by (apply pow2_split; lia).
    assert (Hb152 : 2 ^ (d + (e + 149)) <= 2 ^ 152) by (apply Z.pow_le_mono_r; lia).
    rewrite Hhi in Hb152.
    assert (Hprod : Zpos m * P < 2 ^ 152).
    { apply (product_below _ (2 ^ d)); [exact HP | split; [apply Pos2Z.is_pos | apply Hm] | exact Hb152]. }
    revert Hprod Hlt. generalize (Zpos m * P). clear. intros z.
    numeral (2 ^ 152). numeral (2 ^ 149). lia.
Qed.

(** X16: the test of [drawGL] on a finite scale is the comparison of its value
    with 1/10 and with 10: it holds when ten times the value is below 1 or
    the value is above 10 (both sides counted in units of 2^-149). *)
Lemma scale_out_of_range_value s m e :
  F32.valid m e = true ->
  scale_out_of_range (S754_finite s m e) = true
  <-> 10 * F32.units (S754_finite s m e) < 2 ^ 149
      \/ 10 * 2 ^ 149 < F32.units (S754_finite s m e).
Proof.
  intros Hb. unfold scale_out_of_range, F32.units. rewrite orb_true_iff.
  destruct s.
  - rewrite to_double_finite by exact Hb.
    apply valid_bounds in Hb. destruct Hb as (He & _).
    assert (HP : 0 < Zpos m * 2 ^ (e + 149))
      by (apply Z.mul_pos_pos; [apply Pos2Z.is_pos | apply Z.pow_pos_nonneg; lia]).
    split; [intros _ | intros _; left; reflexivity].
    left. change (cond_Zopp true (Zpos m)) with (- Zpos m). rewrite Z.mul_opp_l.
    revert HP. generalize (Zpos m * 2 ^ (e + 149)). clear. intros z.
    numeral (2 ^ 149). lia.
  - rewrite (below_tenth m e Hb), (above_ten m e Hb). reflexivity.
Qed.

(** X17: zero and the infinities are out of range; a NaN compares false
    with both bounds and is in range. *)
Lemma scale_out_of_range_special :
  (forall s, scale_out_of_range (S754_zero s) = true) /\
  (forall s, scale_out_of_range (S754_infinity s) = true) /\
  scale_out_of_range S754_nan = false.
Proof. repeat split; intros []; reflexivity. Qed.

(** *** The frame *)

Lemma prepare_no_content viewport scale w :
  m_currentBaseLayer w = None ->
  exists w', drawGL_prepare viewport scale w = NoContent w'.
Proof.
  intros Hn. unfold drawGL_prepare. simpl. rewrite Hn. eexists. reflexivity.
Qed.

Lemma prepare_aborts viewport scale w layer :
  m_currentBaseLayer w = Some layer ->
  scale_out_of_range scale = true ->
  exists wc,
    drawGL_prepare viewport scale w = Aborted wc /\
    events wc
    = events w
      ++ [Profiler_nextFrame (SkRect.fLeft viewport) (SkRect.fTop viewport)
            (SkRect.fRight viewport) (SkRect.fBottom viewport) scale;
          TilesManager_incDrawGLCount;
          Log_scaleBeforeUpdate scale;
          TransferQueue_updateDirtyBaseTiles;
          Log_scaleAfterUpdate scale].
Proof.
  intros Hc Ho. unfold drawGL_prepare, drawGL_updateTiles. simpl. rewrite Hc, Ho.
  destruct (m_baseLayer w) as [b |]; simpl;
    [destruct (layer_countChildren b =? 0); simpl |];
    (eexists; split; [reflexivity |]);
    unfold call; simpl; rewrite <- !app_assoc; reflexivity.
Qed.

Lemma prepare_ready viewport scale w layer :
  m_currentBaseLayer w = Some layer ->
  scale_out_of_range scale = false ->
  exists base root w1, drawGL_prepare viewport scale w = Ready layer base root w1.
Proof.
  intros Hc Hi. unfold drawGL_prepare, drawGL_updateTiles. simpl. rewrite Hc, Hi.
  destruct (m_baseLayer w) as [b |]; simpl;
    [destruct (layer_countChildren b =? 0); simpl |];
    do 3 eexists; reflexivity.
Qed.

(** C5: with a base layer present and the scale outside the range, the
    check before the upload only logs, the upload is made, and the check
    after the upload logs and aborts the process; with the scale inside the
    range the call returns, and no call with such a scale aborts. *)
Theorem drawGL_scale_checks rect viewport invalRect webViewRect titleBarHeight clip scale
    w layer :
  m_currentBaseLayer w = Some layer ->
  (scale_out_of_range scale = true ->
   exists wc,
     drawGL rect viewport invalRect webViewRect titleBarHeight clip scale w = Crashed wc /\
     events wc
     = events w
       ++ [Profiler_nextFrame (SkRect.fLeft viewport) (SkRect.fTop viewport)
             (SkRect.fRight viewport) (SkRect.fBottom viewport) scale;
           TilesManager_incDrawGLCount;
           Log_scaleBeforeUpdate scale;
           TransferQueue_updateDirtyBaseTiles;
           Log_scaleAfterUpdate scale]) /\
  (scale_out_of_range scale = false ->
   (exists ret out w',
      drawGL rect viewport invalRect webViewRect titleBarHeight clip scale w
      = Returned ret out w') /\
   forall v wc,
     drawGL rect viewport invalRect webViewRect titleBarHeight clip scale v <> Crashed wc).
Proof.
  intros Hc. split.
  - intros Ho. destruct (prepare_aborts viewport scale w layer Hc Ho) as (wc & Hp & He).
    exists wc. unfold drawGL. rewrite Hp. split; [reflexivity | exact He].
  - intros Hi. split.
    + destruct (prepare_ready viewport scale w layer Hc Hi) as (base & root & w1 & Hp).
      unfold drawGL. rewrite Hp.
      destruct (drawGL_draw _ _ _ _ _ _ _ _ _) as [ret w2].
      destruct (drawGL_report _ _ _ _) as [[ret' out] w3].
      do 3 eexists. reflexivity.
    + intros v wc. unfold drawGL.
      destruct (m_currentBaseLayer v) as [l |] eqn:Hv.
      * destruct (prepare_ready viewport scale v l Hv Hi) as (base & root & w1 & Hp).
        rewrite Hp.
        destruct (drawGL_draw _ _ _ _ _ _ _ _ _) as [ret w2].
        destruct (drawGL_report _ _ _ _) as [[ret' out] w3]. discriminate.
      * destruct (prepare_no_content viewport scale v Hv) as (w' & Hp).
        rewrite Hp. discriminate.
Qed.


Lemma report_switch ret rect invalRect w :
  ret || tm_invertedScreenSwitch w = true ->
  tm_invertedScreenSwitch (snd (drawGL_report ret rect invalRect w)) = false.
Proof. intros Hd. unfold drawGL_report. rewrite Hd. frame. Qed.

Lemma report_result ret rect invalRect w :
  fst (drawGL_report ret rect invalRect w)
  = (ret || tm_invertedScreenSwitch w,
     if ret || tm_invertedScreenSwitch w then
       if tm_invertedScreenSwitch w || IntRect.isEmpty (m_frameworkInval w)
       then IntRect.mk 0 0 0 0
       else
         let mapped :=
           IntRect.unite
             (FloatRect.to_IntRect
                (FloatRect.inflate (F32.of_int 1)
                   (sh_rectInInvScreenCoord (shader w) (m_frameworkInval w))))
             (m_frameworkLayersInval w) in
         if IntRect.intersects mapped rect then mapped else IntRect.mk 0 0 0 0
     else invalRect).
Proof.
  unfold drawGL_report.
  destruct (ret || tm_invertedScreenSwitch w); [| reflexivity].
  destruct (tm_invertedScreenSwitch w); [reflexivity |]. simpl.
  destruct (IntRect.isEmpty (m_frameworkInval w)); [reflexivity |]. simpl.
  destruct (IntRect.intersects _ rect); reflexivity.
Qed.


(** *** The two tiled pages *)

(** C10: in every state reachable from the constructor through the public
    methods, [frontPage] and [backPage] are the two distinct pages,
    [sibling] maps each of them to the other and is an involution on them,
    every method keeps the two page pointers (so the state it leaves is
    again reachable and satisfies the same), and [swapPages] exchanges which
    page is in front. *)
Theorem pages_invariant w :
  reachable w ->
  frontPage w <> backPage w /\
  ((frontPage w = m_tiledPageA w /\ backPage w = m_tiledPageB w) \/
   (frontPage w = m_tiledPageB w /\ backPage w = m_tiledPageA w)) /\
  sibling w (frontPage w) = backPage w /\
  sibling w (backPage w) = frontPage w /\
  (forall p, p = m_tiledPageA w \/ p = m_tiledPageB w -> sibling w (sibling w p) = p) /\
  (forall m w', perform m w = Some w' ->
     reachable w' /\ m_tiledPageA w' = m_tiledPageA w /\ m_tiledPageB w' = m_tiledPageB w) /\
  frontPage (swapPages w) = backPage w /\
  backPage (swapPages w) = frontPage w.
Proof.
  intros Hr. pose proof (reachable_pages_distinct w Hr) as Hne.
  assert (Hab : Pos.eqb (m_tiledPageA w) (m_tiledPageB w) = false)
    by (apply Pos.eqb_neq; exact Hne).
  assert (Hba : Pos.eqb (m_tiledPageB w) (m_tiledPageA w) = false)
    by (apply Pos.eqb_neq; congruence).
  unfold frontPage, backPage, sibling.
  split; [destruct (m_usePageA w); congruence |].
  split; [destruct (m_usePageA w); [left | right]; split; reflexivity |].
  split; [destruct (m_usePageA w); rewrite ?Pos.eqb_refl, ?Hba; reflexivity |].
  split; [destruct (m_usePageA w); rewrite ?Pos.eqb_refl, ?Hba; reflexivity |].
  split; [intros p [-> | ->]; rewrite ?Pos.eqb_refl, ?Hba, ?Pos.eqb_refl; reflexivity |].
  split.
  - intros m w' Hp. split; [eapply reachable_step; eassumption |].
    apply pages_perform in Hp. unfold pages in Hp. split; congruence.
  - simpl. destruct (m_usePageA w); split; reflexivity.
Qed.

(** C6: [swapPages] is the flip of [m_usePageA], then the notification of
    the zoom manager, then one [discardTextures].  The order is what the
    page called sees: whatever [TiledPage::discardTextures] does with the
    state of this object, it is called once, on the back page after the
    flip, and the state it finds has the flip made and the zoom manager
    notified, so that the front page it finds is the page that was in the
    back before the call.  When the flip and the notification are done
    nothing has been discarded yet and front and back already are what they
    are when the call returns; the one page discarded is the back page
    after the flip, which was the front page before the call; the two page
    pointers are not assigned. *)
Theorem swapPages_flips_then_evicts w :
  (forall discardTextures : ptr -> World -> World,
     swapPages_with discardTextures w
     = discardTextures (backPage (swapPages_flip w))
         (swapPages_notify (swapPages_flip w))) /\
  m_usePageA (swapPages_notify (swapPages_flip w)) = negb (m_usePageA w) /\
  m_zoomManager (swapPages_notify (swapPages_flip w)) = zm_swapPages (m_zoomManager w) /\
  frontPage (swapPages_notify (swapPages_flip w)) = backPage w /\
  backPage (swapPages_notify (swapPages_flip w)) = frontPage w /\
  swapPages w
  = call (TiledPage_discardTextures (backPage (swapPages_flip w)))
      (swapPages_notify (swapPages_flip w)) /\
  m_usePageA (swapPages_flip w) = negb (m_usePageA w) /\
  events (swapPages_notify (swapPages_flip w)) = events w /\
  frontPage (swapPages_flip w) = frontPage (swapPages w) /\
  backPage (swapPages_flip w) = backPage (swapPages w) /\
  events (swapPages w) = events w ++ [TiledPage_discardTextures (backPage (swapPages w))] /\
  backPage (swapPages w) = frontPage w /\
  frontPage (swapPages w) = backPage w /\
  m_tiledPageA (swapPages w) = m_tiledPageA w /\
  m_tiledPageB (swapPages w) = m_tiledPageB w.
Proof.
  split; [intros discardTextures; reflexivity |].
  unfold swapPages, swapPages_with, swapPages_notify, swapPages_flip, frontPage, backPage,
    call.
  simpl. destruct (m_usePageA w); simpl; repeat split; reflexivity.
Qed.

(** *** The viewport *)

(** C9: a call of [setViewport] with a rectangle equal to [m_viewport] and a
    scale equal to the zoom manager's future scale returns the state it was
    given: the tile bounds, the scroll flags and the log of calls (no
    [setMaxTextureCount], no [updateBaseTileSize]) are those of before. *)
Theorem setViewport_same_is_noop w viewport scale :
  skrect_equal (m_viewport w) viewport = true ->
  F32.eqb (zm_futureScale (m_zoomManager w)) scale = true ->
  setViewport viewport scale w = w /\
  m_viewportTileBounds (setViewport viewport scale w) = m_viewportTileBounds w /\
  m_goingDown (setViewport viewport scale w) = m_goingDown w /\
  m_goingLeft (setViewport viewport scale w) = m_goingLeft w /\
  events (setViewport viewport scale w) = events w.
Proof.
  intros Hrect Hscale. unfold setViewport. rewrite Hrect, Hscale. simpl.
  repeat split; reflexivity.
Qed.

(** The arithmetic of [int]: a result that fits is kept, and the wrapped
    result of a sum or a product depends on the operands modulo 2^32 only. *)
Lemma wrap_fits z : Int32.fits z = true -> Int32.wrap z = z.
Proof.
  unfold Int32.fits, Int32.wrap, Int32.min_int, Int32.max_int.
  rewrite andb_true_iff, !Z.leb_le. intros [Hlo Hhi].
  rewrite Z.mod_small; lia.
Qed.

Lemma wrap_mod z : Int32.wrap z mod 2 ^ 32 = z mod 2 ^ 32.
Proof.
  unfold Int32.wrap. rewrite Zminus_mod_idemp_l. f_equal. lia.
Qed.

Lemma wrap_congr a b : a mod 2 ^ 32 = b mod 2 ^ 32 -> Int32.wrap a = Int32.wrap b.
Proof.
  intros Hab. unfold Int32.wrap.
  rewrite <- (Zplus_mod_idemp_l a), <- (Zplus_mod_idemp_l b), Hab. reflexivity.
Qed.

Lemma wrap_add a b : Int32.wrap (Int32.wrap a + Int32.wrap b) = Int32.wrap (a + b).
Proof.
  apply wrap_congr. rewrite Zplus_mod, !wrap_mod, <- Zplus_mod. reflexivity.
Qed.

Lemma wrap_mul a b : Int32.wrap (Int32.wrap a * Int32.wrap b) = Int32.wrap (a * b).
Proof.
  apply wrap_congr. rewrite Zmult_mod, !wrap_mod, <- Zmult_mod. reflexivity.
Qed.

Lemma wrap_add_r a b : Int32.wrap (Int32.wrap a + b) = Int32.wrap (a + b).
Proof.
  apply wrap_congr. rewrite Zplus_mod, wrap_mod, <- Zplus_mod. reflexivity.
Qed.

Lemma wrap_mul_r a b : Int32.wrap (Int32.wrap a * b) = Int32.wrap (a * b).
Proof.
  apply wrap_congr. rewrite Zmult_mod, wrap_mod, <- Zmult_mod. reflexivity.
Qed.

Lemma budget_wrap acrossX acrossY :
  maxTextureCount_of (Int32.add acrossX 1) (Int32.add acrossY 1)
  = Int32.wrap
      ((acrossX + 1 + 2 * TILE_PREFETCH_DISTANCE)
       * (acrossY + 1 + 2 * TILE_PREFETCH_DISTANCE) * 2).
Proof.
  unfold maxTextureCount_of, Int32.mul, Int32.add.
  rewrite !wrap_add, wrap_mul, wrap_mul_r.
  rewrite (Z.mul_comm TILE_PREFETCH_DISTANCE 2). reflexivity.
Qed.

(** C4, as the code has it: a call of [setViewport] that is not a no-op
    passes to [setMaxTextureCount] the product
    (tilesAcrossX + 2 * prefetch) * (tilesAcrossY + 2 * prefetch) * 2 as
    [int] arithmetic leaves it, where the count of an axis is
    ceil((extent - 1) * scale / tileSize) + 1, taken as it comes: nothing
    clamps it.  The budget passed is the product itself whenever the product
    fits in an [int], and the product reduced to 32 bits otherwise. *)
Theorem setViewport_budget w viewport scale :
  skrect_equal (m_viewport w) viewport
  && F32.eqb (zm_futureScale (m_zoomManager w)) scale = false ->
  let tilesAcrossX :=
    F32.ceil_to_int
      (F32.mul (F32.sub (SkRect.width viewport) (F32.of_int 1))
         (F32.div scale (F32.of_int tileWidth))) + 1 in
  let tilesAcrossY :=
    F32.ceil_to_int
      (F32.mul (F32.sub (SkRect.height viewport) (F32.of_int 1))
         (F32.div scale (F32.of_int tileHeight))) + 1 in
  let product :=
    (tilesAcrossX + 2 * TILE_PREFETCH_DISTANCE)
    * (tilesAcrossY + 2 * TILE_PREFETCH_DISTANCE) * 2 in
  events (setViewport viewport scale w)
  = events w
    ++ [TilesManager_setMaxTextureCount (Int32.wrap product);
        TiledPage_updateBaseTileSize (m_tiledPageA w);
        TiledPage_updateBaseTileSize (m_tiledPageB w)] /\
  (Int32.fits product = true ->
   events (setViewport viewport scale w)
   = events w
     ++ [TilesManager_setMaxTextureCount product;
         TiledPage_updateBaseTileSize (m_tiledPageA w);
         TiledPage_updateBaseTileSize (m_tiledPageB w)]).
Proof.
  intros Hchanged. cbv zeta.
  assert (He : events (setViewport viewport scale w)
               = events w
                 ++ [TilesManager_setMaxTextureCount
                       (maxTextureCount_of
                          (viewMaxTile (SkRect.width viewport)
                             (F32.div scale (F32.of_int tileWidth)))
                          (viewMaxTile (SkRect.height viewport)
                             (F32.div scale (F32.of_int tileHeight))));
                     TiledPage_updateBaseTileSize (m_tiledPageA w);
                     TiledPage_updateBaseTileSize (m_tiledPageB w)]).
  { unfold setViewport. rewrite Hchanged. unfold call. simpl.
    rewrite <- !app_assoc. reflexivity. }
  unfold viewMaxTile in He. rewrite budget_wrap in He.
  split; [exact He |].
  intros Hfits. rewrite He, (wrap_fits _ Hfits). reflexivity.
Qed.

(* --------------------------------------------------------------------- *)
(** *** Further properties *)
(* --------------------------------------------------------------------- *)

(** **** Custody of the layers *)

Lemma count_add_lookup d q (m : gmap ptr Z) p :
  default 0 (count_add d q m !! p) = default 0 (m !! p) + d * holds q p.
Proof.
  unfold count_add, holds. destruct q as [a |].
  - rewrite lookup_insert. case_decide as Ha; case_bool_decide as Hb; simplify_eq; simpl; lia.
  - case_bool_decide; [discriminate | lia].
Qed.

Lemma holds_None p : holds None p = 0.
Proof. reflexivity. Qed.

Lemma foreign_refs_custody w v : custody w = custody v -> foreign_refs w = foreign_refs v.
Proof.
  unfold custody, foreign_refs, count, held. intros [= -> -> -> ->]. reflexivity.
Qed.

Lemma gate_settled_gate w v : gate w = gate v -> gate_settled v -> gate_settled w.
Proof. unfold gate, gate_settled. intros [= -> -> -> ->]. tauto. Qed.

Lemma custody_inval r w : custody (inval r w) = custody w.
Proof. unfold inval. frame. Qed.

Lemma custody_invalRects l w : custody (invalRects l w) = custody w.
Proof. apply invalRects_keeps. apply custody_inval. Qed.

Lemma gate_inval_unlocked r w : m_baseLayerUpdate w = true -> gate (inval r w) = gate w.
Proof. intros Hu. unfold inval. rewrite Hu. frame. Qed.

Lemma gate_invalRects_unlocked l : forall w,
  m_baseLayerUpdate w = true -> gate (invalRects l w) = gate w.
Proof.
  induction l as [| q l IH]; intros w Hu; [reflexivity |].
  rewrite invalRects_cons, IH by (rewrite inval_gate; exact Hu).
  apply gate_inval_unlocked. exact Hu.
Qed.

Lemma custody_drawFocusRing r w : custody (drawFocusRing r w) = custody w.
Proof. unfold drawFocusRing. frame. Qed.

Lemma gate_drawFocusRing r w : gate (drawFocusRing r w) = gate w.
Proof. unfold drawFocusRing. frame. Qed.

Lemma paintExtras_keeps {B : Type} (obs : World -> B) :
  (forall e w, obs (call e w) = obs w) ->
  (forall r w, obs (drawFocusRing r w) = obs w) ->
  forall w, obs (paintExtras w) = obs w.
Proof.
  intros Hcall Hring w. unfold paintExtras.
  destruct (m_displayRings w && _); [| reflexivity].
  destruct (SkIRect.isEmpty _); [reflexivity |].
  destruct (m_ringsIsButton _ && m_ringsIsPressed _);
    rewrite ?(fold_left_keeps obs) by (intros; apply Hring);
    destruct (m_ringsIsPressed _);
    rewrite ?(fold_left_keeps obs) by (intros; apply Hring);
    apply Hcall.
Qed.

Lemma custody_setViewport viewport scale w :
  custody (setViewport viewport scale w) = custody w.
Proof. unfold setViewport. frame. Qed.

Lemma gate_setViewport viewport scale w : gate (setViewport viewport scale w) = gate w.
Proof. unfold setViewport. frame. Qed.

Lemma setupDrawing_keeps {B : Type} (obs : World -> B) :
  (forall e w, obs (call e w) = obs w) ->
  (forall s w, obs (set_shader s w) = obs w) ->
  (forall z w, obs (set_m_zoomManager z w) = obs w) ->
  (forall b w, obs (set_m_preZoomBounds b w) = obs w) ->
  (forall b w, obs (set_m_futureViewportTileBounds b w) = obs w) ->
  (forall v s w, obs (setViewport v s w) = obs w) ->
  forall viewRect visibleRect webViewRect titleBarHeight screenClip scale w,
    obs (snd (setupDrawing viewRect visibleRect webViewRect titleBarHeight screenClip scale w))
    = obs w.
Proof.
  intros Hcall Hsh Hzm Hpre Hfut Hvp viewRect visibleRect webViewRect titleBarHeight
    screenClip scale w.
  unfold setupDrawing.
  destruct (zm_processNewScale _ _ _ _ _ _) as [[zm pre] fut]. simpl snd.
  rewrite Hfut, Hpre, Hzm, Hvp, Hcall, !Hsh.
  destruct (sh_program (shader _) =? -1); rewrite ?Hsh, !Hcall; reflexivity.
Qed.

#[local] Arguments count_add : simpl never.

Lemma store_custody layer first w :
  let w' := setBaseLayer_store layer first w in
  let released := count_add (-1) (m_baseLayer w) (count_add 1 layer (refcount w)) in
  refcount w'
  = (if first || m_baseLayerUpdate w
     then count_add (-1) (m_currentBaseLayer w) (count_add 1 layer released)
     else released) /\
  m_baseLayer w' = layer /\
  m_currentBaseLayer w' = (if first || m_baseLayerUpdate w then layer else m_currentBaseLayer w) /\
  m_previouslyUsedRoot w' = m_previouslyUsedRoot w.
Proof.
  cbv zeta. unfold setBaseLayer_store, SkSafeRef, SkSafeUnref, call.
  destruct layer as [l |]; simpl; destruct first; simpl;
    destruct (m_baseLayer w) as [b |] eqn:Hb; simpl; rewrite ?Hb;
    destruct (m_baseLayerUpdate w); simpl; rewrite ?Hb; repeat split.
Qed.

Lemma foreign_refs_store layer first w p :
  foreign_refs (setBaseLayer_store layer first w) p = foreign_refs w p.
Proof.
  destruct (store_custody layer first w) as (Hr & Hb & Hc & Hp).
  unfold foreign_refs, count, held. rewrite Hr, Hb, Hc, Hp.
  destruct (first || m_baseLayerUpdate w); rewrite !count_add_lookup; lia.
Qed.

Lemma foreign_refs_setBaseLayer layer region show first w p :
  foreign_refs (setBaseLayer layer region show first w) p = foreign_refs w p.
Proof.
  unfold setBaseLayer. cbv zeta. rewrite invalRegion_rects.
  rewrite <- (foreign_refs_store layer first w p).
  apply (f_equal (fun f => f p)). apply foreign_refs_custody.
  change (custody (call ?e ?v)) with (custody v). apply custody_invalRects.
Qed.

Lemma foreign_refs_unlock w p : foreign_refs (unlockBaseLayerUpdate w) p = foreign_refs w p.
Proof.
  unfold unlockBaseLayerUpdate. destruct (m_baseLayerUpdate w); [reflexivity |].
  cbv zeta. rewrite invalRegion_rects.
  set (w1 := set_m_currentBaseLayer _ _).
  transitivity (foreign_refs w1 p).
  - apply (f_equal (fun f => f p)). apply foreign_refs_custody.
    change (custody (set_m_invalidateRegion ?g ?v)) with (custody v).
    apply custody_invalRects.
  - unfold w1, foreign_refs, count, held, SkSafeRef, SkSafeUnref. simpl.
    rewrite !count_add_lookup. lia.
Qed.

Lemma foreign_refs_setExtra layer picture rect allowSame w p :
  foreign_refs (setExtra layer picture rect allowSame w) p = foreign_refs w p.
Proof.
  apply (f_equal (fun f => f p)). apply foreign_refs_custody.
  unfold setExtra.
  destruct (negb (m_baseLayerUpdate w)); [reflexivity |].
  destruct (negb allowSame && _); [reflexivity |].
  change (custody (set_m_displayRings ?b (set_m_lastInval ?r ?v))) with (custody v).
  destruct (negb (IntRect.isEmpty rect)), (negb (IntRect.isEmpty _));
    rewrite ?custody_inval; reflexivity.
Qed.

Lemma store_gate layer first w :
  let w' := setBaseLayer_store layer first w in
  m_baseLayerUpdate w' = first || m_baseLayerUpdate w /\
  m_invalidateRegion w' = (if first then rgn_empty else m_invalidateRegion w).
Proof.
  cbv zeta. unfold setBaseLayer_store, SkSafeRef, SkSafeUnref, call.
  destruct layer as [l |]; simpl; destruct first; simpl;
    destruct (m_baseLayer w) as [b |] eqn:Hb; simpl; rewrite ?Hb;
    destruct (m_baseLayerUpdate w) eqn:Hg; simpl; rewrite ?Hb, ?Hg; repeat split.
Qed.

Lemma gate_settled_store layer first w :
  gate_settled w -> gate_settled (setBaseLayer_store layer first w).
Proof.
  intros Hs. destruct (store_custody layer first w) as (_ & Hb & Hc & _).
  destruct (store_gate layer first w) as (Hg & Hp).
  unfold gate_settled. rewrite Hg, Hb, Hc, Hp. intros Hu. rewrite Hu.
  split; [reflexivity |]. destruct first; [reflexivity |].
  apply Hs. exact Hu.
Qed.

Lemma setBaseLayer_gate layer region show first w :
  m_baseLayerUpdate (setBaseLayer_store layer first w) = true ->
  gate (setBaseLayer layer region show first w) = gate (setBaseLayer_store layer first w).
Proof.
  intros Hu. unfold setBaseLayer. cbv zeta. rewrite invalRegion_rects.
  change (gate (call ?e ?v)) with (gate v).
  apply gate_invalRects_unlocked. exact Hu.
Qed.

Lemma setBaseLayer_flag layer region show first w :
  m_baseLayerUpdate (setBaseLayer layer region show first w)
  = m_baseLayerUpdate (setBaseLayer_store layer first w).
Proof.
  unfold setBaseLayer. cbv zeta. rewrite invalRegion_rects.
  change (m_baseLayerUpdate (call ?e ?v)) with (m_baseLayerUpdate v).
  apply (invalRects_keeps m_baseLayerUpdate). apply inval_gate.
Qed.

Lemma gate_settled_setBaseLayer layer region show first w :
  gate_settled w -> gate_settled (setBaseLayer layer region show first w).
Proof.
  intros Hs. destruct (m_baseLayerUpdate (setBaseLayer_store layer first w)) eqn:Hg.
  - apply (gate_settled_gate _ (setBaseLayer_store layer first w)).
    + apply setBaseLayer_gate. exact Hg.
    + apply gate_settled_store. exact Hs.
  - intros Habs. rewrite setBaseLayer_flag, Hg in Habs. discriminate.
Qed.

Lemma gate_settled_unlock w : gate_settled w -> gate_settled (unlockBaseLayerUpdate w).
Proof.
  intros Hs. destruct (m_baseLayerUpdate w) eqn:Hg.
  - rewrite unlock_unlocked by exact Hg. exact Hs.
  - destruct (unlock_locked w Hg) as (_ & Hc & Hp & _). intros _.
    split; [| exact Hp]. rewrite Hc.
    unfold unlockBaseLayerUpdate. rewrite Hg. cbv zeta. rewrite invalRegion_rects.
    change (m_baseLayer (set_m_invalidateRegion ?g ?v)) with (m_baseLayer v).
    rewrite (invalRects_keeps m_baseLayer) by apply inval_baseLayer. reflexivity.
Qed.

Lemma gate_settled_inval r w : gate_settled w -> gate_settled (inval r w).
Proof.
  intros Hs. destruct (m_baseLayerUpdate w) eqn:Hg.
  - apply (gate_settled_gate _ w); [apply gate_inval_unlocked; exact Hg | exact Hs].
  - intros Habs. rewrite inval_gate, Hg in Habs. discriminate.
Qed.

Lemma gate_settled_setExtra layer picture rect allowSame w :
  gate_settled w -> gate_settled (setExtra layer picture rect allowSame w).
Proof.
  intros Hs. unfold setExtra.
  destruct (m_baseLayerUpdate w) eqn:Hg; [| exact Hs]. simpl negb. cbv iota.
  destruct (negb allowSame && _); [exact Hs |].
  apply (gate_settled_gate _ w); [| exact Hs].
  change (gate (set_m_displayRings ?b (set_m_lastInval ?r ?v))) with (gate v).
  set (w1 := call (BaseLayer_setExtra layer picture) w).
  assert (Hg1 : m_baseLayerUpdate w1 = true) by exact Hg.
  change (gate w) with (gate w1).
  destruct (negb (IntRect.isEmpty rect)).
  - rewrite inval_lastInval.
    destruct (negb (IntRect.isEmpty _));
      rewrite ?gate_inval_unlocked; rewrite ?inval_gate; auto.
  - destruct (negb (IntRect.isEmpty _)); rewrite ?gate_inval_unlocked; auto.
Qed.

Lemma prepare_custody viewport scale w :
  match drawGL_prepare viewport scale w with
  | NoContent w1 => gate w1 = gate w /\ forall p, foreign_refs w1 p = foreign_refs w p
  | Aborted _ => True
  | Ready layer base root w1 =>
      gate w1 = gate w /\
      forall p, foreign_refs w1 p = foreign_refs w p + holds (Some layer) p + holds base p
  end.
Proof.
  unfold drawGL_prepare, drawGL_updateTiles, resetLayersDirtyArea, SkSafeRef, SkSafeUnref,
    call.
  simpl.
  destruct (m_currentBaseLayer w) as [layer |] eqn:Hc; simpl.
  - destruct (m_baseLayer w) as [b |] eqn:Hb; simpl;
      [destruct (layer_countChildren b =? 0); simpl |];
      (destruct (scale_out_of_range scale); [exact I |]);
      (split; [unfold gate; simpl; rewrite Hc, Hb; reflexivity |]);
      intros p; unfold foreign_refs, count, held; simpl;
      rewrite ?Hc, ?Hb, !count_add_lookup; lia.
  - split; [unfold gate; simpl; rewrite Hc; reflexivity |].
    intros p. unfold foreign_refs, count, held. simpl.
    rewrite ?Hc, !count_add_lookup, !holds_None. lia.
Qed.

Lemma report_keeps ret rect invalRect w :
  gate (snd (drawGL_report ret rect invalRect w)) = gate w /\
  custody (snd (drawGL_report ret rect invalRect w)) = custody w.
Proof. unfold drawGL_report. split; frame. Qed.

Section Reentry.

(** The delegated draw re-enters this object only through its public
    methods; these keep the references of everybody else, and leave a
    settled gate settled. *)
Hypothesis draw_keeps_foreign_refs : forall layer time root rect viewport scale w p,
  foreign_refs (snd (baseLayer_drawGL layer time root rect viewport scale w)) p
  = foreign_refs w p.

Lemma draw_custody layer root rect viewport webViewRect titleBarHeight clip scale w p :
  foreign_refs
    (snd (drawGL_draw layer root rect viewport webViewRect titleBarHeight clip scale w)) p
  = foreign_refs w p.
Proof.
  unfold drawGL_draw.
  destruct (setupDrawing _ _ _ _ _ _ _) as [time w1] eqn:Hsetup.
  destruct (baseLayer_drawGL _ _ _ _ _ _ _) as [ret w2] eqn:Hdraw.
  simpl snd.
  transitivity (foreign_refs (paintExtras w2) p).
  { unfold foreign_refs, count, held, SkSafeRef, SkSafeUnref. simpl.
    rewrite !count_add_lookup. lia. }
  transitivity (foreign_refs w2 p).
  { apply (f_equal (fun f => f p)). apply foreign_refs_custody.
    apply (paintExtras_keeps custody); [reflexivity | apply custody_drawFocusRing]. }
  pose proof (draw_keeps_foreign_refs layer time root rect viewport scale w1 p) as Hlaw.
  rewrite Hdraw in Hlaw. simpl in Hlaw. rewrite Hlaw.
  apply (f_equal (fun f => f p)). apply foreign_refs_custody.
  change w1 with (snd (time, w1)). rewrite <- Hsetup.
  rewrite (setupDrawing_keeps custody) by (reflexivity || apply custody_setViewport).
  frame.
Qed.

(** X1: every public method keeps, for every object, the references held
    by everybody else, provided the draw delegated to the base layer keeps
    them: the reference count moves exactly with the handles [m_baseLayer],
    [m_currentBaseLayer] and [m_previouslyUsedRoot], and the references
    [drawGL] takes for the time of a frame are released when it returns. *)
Theorem perform_keeps_foreign_refs m w w' :
  perform m w = Some w' -> forall p, foreign_refs w' p = foreign_refs w p.
Proof.
  destruct m; simpl; intros Hp p; try (injection Hp as <-).
  - apply foreign_refs_setBaseLayer.
  - apply (f_equal (fun f => f p)). apply foreign_refs_custody. unfold setRings. frame.
  - reflexivity.
  - apply foreign_refs_unlock.
  - apply foreign_refs_setExtra.
  - apply (f_equal (fun f => f p)). apply foreign_refs_custody. apply custody_inval.
  - reflexivity.
  - apply (f_equal (fun f => f p)). apply foreign_refs_custody.
    unfold paintBaseLayerContent. frame.
  - reflexivity.
  - apply (f_equal (fun f => f p)). apply foreign_refs_custody. apply custody_setViewport.
  - reflexivity.
  - apply (f_equal (fun f => f p)). apply foreign_refs_custody. unfold addDirtyArea. frame.
  - reflexivity.
  - unfold drawGL in Hp.
    pose proof (prepare_custody viewport scale w) as Hprep.
    destruct (drawGL_prepare viewport scale w) as [w1 | w1 | layer base root w1].
    + injection Hp as <-. apply Hprep.
    + discriminate.
    + destruct Hprep as [_ Hrefs].
      pose proof (draw_custody layer root rect viewport webViewRect titleBarHeight clip
                    scale w1 p) as Hdraw.
      destruct (drawGL_draw _ _ _ _ _ _ _ _ _) as [ret w2]. simpl in Hdraw.
      destruct (report_keeps ret rect invalRect w2) as [_ Hrep].
      destruct (drawGL_report ret rect invalRect w2) as [[ret' out] w3]. simpl in Hrep.
      injection Hp as <-.
      transitivity (foreign_refs w3 p - holds base p - holds (Some layer) p).
      { unfold foreign_refs, count, held, SkSafeUnref. simpl.
        rewrite !count_add_lookup. lia. }
      rewrite (foreign_refs_custody w3 w2 Hrep), Hdraw, Hrefs. lia.
Qed.

End Reentry.

Lemma new_gate_settled allocated zoom sh inv sw pressed button refs log :
  gate_settled (GLWebViewState_new allocated zoom sh inv sw pressed button refs log).
Proof. intros _. split; reflexivity. Qed.

Section SettledGate.

Hypothesis draw_keeps_gate_settled : forall layer time root rect viewport scale w,
  gate_settled w ->
  gate_settled (snd (baseLayer_drawGL layer time root rect viewport scale w)).

Lemma draw_gate_settled layer root rect viewport webViewRect titleBarHeight clip scale w :
  gate_settled w ->
  gate_settled
    (snd (drawGL_draw layer root rect viewport webViewRect titleBarHeight clip scale w)).
Proof.
  intros Hs. unfold drawGL_draw.
  destruct (setupDrawing _ _ _ _ _ _ _) as [time w1] eqn:Hsetup.
  destruct (baseLayer_drawGL _ _ _ _ _ _ _) as [ret w2] eqn:Hdraw.
  simpl snd.
  apply (gate_settled_gate _ w2).
  { change (gate (set_m_previouslyUsedRoot ?r (SkSafeUnref ?a (SkSafeRef ?b (call ?e ?v)))))
      with (gate v).
    apply (paintExtras_keeps gate); [reflexivity | apply gate_drawFocusRing]. }
  change w2 with (snd (ret, w2)). rewrite <- Hdraw.
  apply draw_keeps_gate_settled.
  apply (gate_settled_gate _ w); [| exact Hs].
  change w1 with (snd (time, w1)). rewrite <- Hsetup.
  rewrite (setupDrawing_keeps gate) by (reflexivity || apply gate_setViewport).
  frame.
Qed.

Lemma perform_gate_settled m w w' :
  gate_settled w -> perform m w = Some w' -> gate_settled w'.
Proof.
  intros Hs. destruct m; simpl; intros Hp; try (injection Hp as <-).
  - apply gate_settled_setBaseLayer. exact Hs.
  - apply (gate_settled_gate _ w); [unfold setRings; frame | exact Hs].
  - intros Habs. discriminate.
  - apply gate_settled_unlock. exact Hs.
  - apply gate_settled_setExtra. exact Hs.
  - apply gate_settled_inval. exact Hs.
  - exact Hs.
  - apply (gate_settled_gate _ w); [unfold paintBaseLayerContent; frame | exact Hs].
  - exact Hs.
  - apply (gate_settled_gate _ w); [apply gate_setViewport | exact Hs].
  - exact Hs.
  - apply (gate_settled_gate _ w); [unfold addDirtyArea; frame | exact Hs].
  - exact Hs.
  - unfold drawGL in Hp.
    pose proof (prepare_custody viewport scale w) as Hprep.
    destruct (drawGL_prepare viewport scale w) as [w1 | w1 | layer base root w1].
    + injection Hp as <-. apply (gate_settled_gate _ w); [apply Hprep | exact Hs].
    + discriminate.
    + destruct Hprep as [Hgate _].
      pose proof (draw_gate_settled layer root rect viewport webViewRect titleBarHeight clip
                    scale w1 (gate_settled_gate _ _ Hgate Hs)) as Hdraw.
      destruct (drawGL_draw _ _ _ _ _ _ _ _ _) as [ret w2]. simpl in Hdraw.
      destruct (report_keeps ret rect invalRect w2) as [Hrep _].
      destruct (drawGL_report ret rect invalRect w2) as [[ret' out] w3]. simpl in Hrep.
      injection Hp as <-.
      apply (gate_settled_gate _ w2); [| exact Hdraw].
      rewrite <- Hrep. reflexivity.
Qed.

(** X2: in every state reachable from the constructor the gate is settled,
    provided the draw delegated to the base layer leaves a settled gate
    settled: whenever the gate is unlocked, the layer in use is the latest
    layer supplied and the pending region is empty. *)
Theorem reachable_gate_settled w : reachable w -> gate_settled w.
Proof.
  induction 1 as [| w m w' _ IH Hp].
  - apply new_gate_settled.
  - exact (perform_gate_settled m w w' IH Hp).
Qed.

End SettledGate.

(** *** Frames without content, and what a frame writes *)

(** X3: without a layer in use [drawGL] draws nothing: it returns [false]
    and leaves [invalRect] alone whatever the scale is (the checks of the
    scale are not reached), only the profiler and the frame counter are
    told, the reference taken on the latest layer is given back, and the
    gate, the two unions and the switch of the inverted screen stay as they
    were. *)
Theorem drawGL_without_content rect viewport invalRect webViewRect titleBarHeight clip
    scale w :
  m_currentBaseLayer w = None ->
  exists w',
    drawGL rect viewport invalRect webViewRect titleBarHeight clip scale w
    = Returned false invalRect w' /\
    events w'
    = events w
      ++ [Profiler_nextFrame (SkRect.fLeft viewport) (SkRect.fTop viewport)
            (SkRect.fRight viewport) (SkRect.fBottom viewport) scale;
          TilesManager_incDrawGLCount] /\
    (forall p, count w' p = count w p) /\
    gate w' = gate w /\
    m_previouslyUsedRoot w' = m_previouslyUsedRoot w /\
    m_frameworkInval w' = m_frameworkInval w /\
    m_frameworkLayersInval w' = m_frameworkLayersInval w /\
    tm_invertedScreenSwitch w' = tm_invertedScreenSwitch w.
Proof.
  intros Hc. unfold drawGL, drawGL_prepare. cbv zeta.
  change (m_currentBaseLayer (call ?e (call ?e' ?v))) with (m_currentBaseLayer v).
  rewrite Hc. eexists. split; [reflexivity |].
  split; [unfold call; simpl; rewrite <- app_assoc; reflexivity |].
  split; [| repeat split].
  intros p. unfold count, SkSafeUnref, SkSafeRef, call. simpl.
  rewrite !count_add_lookup, holds_None. lia.
Qed.

(** X4: what a returning [drawGL] writes through [invalRect]: nothing when
    it returns [false]; when it returns [true], the full-screen sentinel
    (0,0,0,0) or a rectangle that intersects the clip [rect], and the switch
    of the inverted screen has been consumed. *)
Theorem drawGL_written_rectangle rect viewport invalRect webViewRect titleBarHeight clip
    scale w ret out w' :
  drawGL rect viewport invalRect webViewRect titleBarHeight clip scale w
  = Returned ret out w' ->
  (ret = false -> out = invalRect) /\
  (ret = true ->
   (out = IntRect.mk 0 0 0 0 \/ IntRect.intersects out rect = true) /\
   tm_invertedScreenSwitch w' = false).
Proof.
  unfold drawGL.
  destruct (drawGL_prepare viewport scale w) as [w1 | w1 | layer base root w1].
  - intros [= <- <- <-]. split; [reflexivity | discriminate].
  - discriminate.
  - destruct (drawGL_draw _ _ _ _ _ _ _ _ _) as [dirty w2].
    pose proof (report_result dirty rect invalRect w2) as Hres.
    pose proof (report_switch dirty rect invalRect w2) as Hsw.
    destruct (drawGL_report dirty rect invalRect w2) as [[ret' out'] w3].
    simpl in Hres, Hsw. intros [= <- <- <-].
    injection Hres as Hret Hout.
    split.
    + intros Hf. rewrite Hf in Hret. rewrite <- Hret in Hout. exact Hout.
    + intros Ht. rewrite Ht in Hret. rewrite <- Hret in Hout.
      split; [| apply Hsw; symmetry; exact Hret].
      destruct (tm_invertedScreenSwitch w2 || IntRect.isEmpty (m_frameworkInval w2));
        [left; exact Hout |].
      cbv zeta in Hout.
      destruct (IntRect.intersects _ rect) eqn:Hi; [right | left; exact Hout].
      rewrite Hout. exact Hi.
Qed.

(** *** Unions of rectangles *)

Lemma encloses_refl r : IntRect.encloses r r.
Proof. intros px py Hc. exact Hc. Qed.

Lemma encloses_trans a b c :
  IntRect.encloses a b -> IntRect.encloses b c -> IntRect.encloses a c.
Proof. intros Hab Hbc px py Hc. apply Hab, Hbc, Hc. Qed.

Lemma empty_enclosed b r : IntRect.isEmpty r = true -> IntRect.encloses b r.
Proof.
  intros He px py [Hx Hy]. apply IntRect_isEmpty_true in He.
  unfold IntRect.maxX, IntRect.maxY in *. lia.
Qed.

Lemma unite_encloses u r :
  IntRect.encloses (IntRect.unite u r) u /\
  IntRect.encloses (IntRect.unite u r) r /\
  forall b, IntRect.encloses b u -> IntRect.encloses b r ->
            IntRect.encloses b (IntRect.unite u r).
Proof.
  destruct (IntRect.isEmpty r) eqn:Hr.
  - rewrite (unite_empty_r u r Hr).
    split; [apply encloses_refl |]. split; [apply empty_enclosed; exact Hr | auto].
  - destruct (IntRect.isEmpty u) eqn:Hu.
    + assert (IntRect.unite u r = r) as ->
        by (unfold IntRect.unite; rewrite Hr, Hu; reflexivity).
      split; [apply empty_enclosed; exact Hu |]. split; [apply encloses_refl | auto].
    + apply unite_smallest; assumption.
Qed.

Lemma invals_cons r l w : invals (r :: l) w = invals l (inval r w).
Proof. reflexivity. Qed.

Lemma invalidations_app l1 l2 :
  invalidations (l1 ++ l2) = invalidations l1 ++ invalidations l2.
Proof. unfold invalidations. apply flat_map_app. Qed.

Lemma inval_frontPage r w : frontPage (inval r w) = frontPage w.
Proof. unfold frontPage, inval. frame. Qed.

(** The page an invalidation goes to is the front page at the time of the
    call. *)
Lemma inval_invalidations r w :
  invalidations (events (inval r w))
  = invalidations (events w)
    ++ (if m_baseLayerUpdate w && negb (IntRect.isEmpty r) then [(frontPage w, r)] else []).
Proof.
  unfold inval, call, frontPage. destruct (m_baseLayerUpdate w); simpl.
  - destruct (IntRect.isEmpty r); simpl.
    + rewrite invalidations_app. reflexivity.
    + destruct (IntRect.isEmpty (m_frameworkInval w)); simpl;
        rewrite !invalidations_app; simpl; rewrite app_nil_r; reflexivity.
  - rewrite invalidations_app. reflexivity.
Qed.

(** X5: any run of [inval] calls on an unlocked gate leaves as base-content
    union the smallest rectangle that encloses the union before the run and
    every rectangle of the run, and hands the front page, and no other
    page, exactly the non-empty rectangles, in call order. *)
Theorem invals_union l w :
  m_baseLayerUpdate w = true ->
  let u := m_frameworkInval (invals l w) in
  IntRect.encloses u (m_frameworkInval w) /\
  (forall r, In r l -> IntRect.encloses u r) /\
  (forall b, IntRect.encloses b (m_frameworkInval w) ->
             (forall r, In r l -> IntRect.encloses b r) -> IntRect.encloses b u) /\
  invalidated (events (invals l w))
  = invalidated (events w) ++ List.filter (fun r => negb (IntRect.isEmpty r)) l /\
  invalidations (events (invals l w))
  = invalidations (events w)
    ++ map (fun r => (frontPage w, r)) (List.filter (fun r => negb (IntRect.isEmpty r)) l).
Proof.
  cbv zeta. revert w. induction l as [| r l IH]; intros w Hg.
  - simpl. rewrite !app_nil_r.
    split; [apply encloses_refl |]. split; [intros r [] |].
    split; [auto | split; reflexivity].
  - rewrite invals_cons.
    assert (Hg' : m_baseLayerUpdate (inval r w) = true) by (rewrite inval_gate; exact Hg).
    destruct (IH (inval r w) Hg') as (Hold & Hin & Hmin & Hev & Hpg).
    rewrite inval_frameworkInval, Hg in Hold, Hmin.
    destruct (unite_encloses (m_frameworkInval w) r) as (Hu1 & Hu2 & Hu3).
    split; [exact (encloses_trans _ _ _ Hold Hu1) |].
    split; [| split].
    + intros q [<- | Hq]; [exact (encloses_trans _ _ _ Hold Hu2) | apply Hin, Hq].
    + intros b Hb Hall. apply Hmin.
      * apply Hu3; [exact Hb | apply Hall; left; reflexivity].
      * intros q Hq. apply Hall. right. exact Hq.
    + split.
      * rewrite Hev, inval_invalidated, Hg. simpl.
        destruct (IntRect.isEmpty r); simpl; rewrite <- app_assoc; reflexivity.
      * rewrite Hpg, inval_invalidations, inval_frontPage, Hg. simpl.
        destruct (IntRect.isEmpty r); simpl; rewrite <- app_assoc; reflexivity.
Qed.

(** X6: [addDirtyArea] ignores an empty rectangle; a non-empty one is
    inflated by 8 on every side and the layer union becomes the smallest
    rectangle enclosing the union before and the inflated rectangle.  The
    base-content union and the collaborators are not touched. *)
Theorem addDirtyArea_union rect w :
  (IntRect.isEmpty rect = true -> addDirtyArea rect w = w) /\
  (IntRect.isEmpty rect = false ->
   let u := m_frameworkLayersInval (addDirtyArea rect w) in
   IntRect.isEmpty u = false /\
   IntRect.encloses u (m_frameworkLayersInval w) /\
   (forall px py,
      IntRect.x rect - 8 <= px < IntRect.maxX rect + 8 ->
      IntRect.y rect - 8 <= py < IntRect.maxY rect + 8 -> IntRect.contains u px py) /\
   (forall b, IntRect.encloses b (m_frameworkLayersInval w) ->
              IntRect.encloses b (IntRect.inflate 8 rect) -> IntRect.encloses b u)) /\
  m_frameworkInval (addDirtyArea rect w) = m_frameworkInval w /\
  events (addDirtyArea rect w) = events w.
Proof.
  split; [intros He; unfold addDirtyArea; rewrite He; reflexivity |].
  split; [| unfold addDirtyArea; split; frame].
  intros Hr. cbv zeta.
  assert (Hi : IntRect.isEmpty (IntRect.inflate 8 rect) = false).
  { apply IntRect_isEmpty_false in Hr. apply IntRect_isEmpty_false. simpl. lia. }
  assert (Hu : m_frameworkLayersInval (addDirtyArea rect w)
               = IntRect.unite (m_frameworkLayersInval w) (IntRect.inflate 8 rect)).
  { unfold addDirtyArea, IntRect.unite. rewrite Hr, Hi.
    destruct (IntRect.isEmpty (m_frameworkLayersInval w)); reflexivity. }
  rewrite Hu.
  destruct (unite_encloses (m_frameworkLayersInval w) (IntRect.inflate 8 rect))
    as (Hu1 & Hu2 & Hu3).
  split; [| split; [exact Hu1 | split; [| exact Hu3]]].
  - unfold IntRect.unite. rewrite Hi.
    destruct (IntRect.isEmpty (m_frameworkLayersInval w)) eqn:Hold; [exact Hi |].
    apply IntRect_isEmpty_false in Hold, Hi. apply IntRect_isEmpty_false.
    unfold IntRect.maxX, IntRect.maxY in *. simpl. lia.
  - intros px py Hx Hy. apply Hu2.
    unfold IntRect.contains, IntRect.maxX, IntRect.maxY in *. simpl. lia.
Qed.

(** *** The two pages *)

Lemma swapPages_steps w :
  swapPages w
  = call (TiledPage_discardTextures (frontPage w))
      (set_m_zoomManager (zm_swapPages (m_zoomManager w))
         (set_m_usePageA (negb (m_usePageA w)) w)).
Proof.
  unfold swapPages, swapPages_with, swapPages_flip, swapPages_notify, frontPage.
  cbv zeta. destruct (m_usePageA w); reflexivity.
Qed.

(** X7: two calls of [swapPages] bring the pages back to their roles: the
    front page is the front page again, both pages were told once to
    discard their textures (first the page that left the front), the zoom
    manager was notified twice, and nothing else moved.  Between the two
    calls an invalidation goes to the page that was in the back. *)
Theorem swapPages_twice w :
  let w2 := swapPages (swapPages w) in
  m_usePageA w2 = m_usePageA w /\
  frontPage w2 = frontPage w /\
  backPage w2 = backPage w /\
  m_zoomManager w2 = zm_swapPages (zm_swapPages (m_zoomManager w)) /\
  events w2
  = events w
    ++ [TiledPage_discardTextures (frontPage w); TiledPage_discardTextures (backPage w)] /\
  custody w2 = custody w /\
  gate w2 = gate w /\
  m_frameworkInval w2 = m_frameworkInval w /\
  (m_baseLayerUpdate w = true ->
   forall r, IntRect.isEmpty r = false ->
     events (inval r (swapPages w))
     = events w
       ++ [TiledPage_discardTextures (frontPage w);
           TiledPage_invalidateRect (backPage w) r
             (next_picture_counter (m_currentPictureCounter w));
           Profiler_nextInval r (zm_currentScale (zm_swapPages (m_zoomManager w)))]).
Proof.
  cbv zeta. rewrite (swapPages_steps (swapPages w)), !(swapPages_steps w).
  unfold frontPage, backPage, call.
  split; [simpl; apply negb_involutive |].
  split; [simpl; destruct (m_usePageA w); reflexivity |].
  split; [simpl; destruct (m_usePageA w); reflexivity |].
  split; [reflexivity |].
  split; [simpl; destruct (m_usePageA w); simpl; rewrite <- app_assoc; reflexivity |].
  split; [reflexivity |]. split; [reflexivity |]. split; [reflexivity |].
  intros Hg r Hr. unfold inval, call, frontPage.
  cbn [m_baseLayerUpdate set_events set_m_zoomManager set_m_usePageA].
  rewrite Hg, Hr. cbn [negb].
  destruct (m_usePageA w); simpl;
    destruct (IntRect.isEmpty (m_frameworkInval w)); simpl;
    rewrite <- !app_assoc; reflexivity.
Qed.

(** *** A new base layer on an unlocked gate *)

Lemma discarded_app l1 l2 : discarded (l1 ++ l2) = discarded l1 ++ discarded l2.
Proof. unfold discarded. apply flat_map_app. Qed.

Lemma inval_discarded r w : discarded (events (inval r w)) = discarded (events w).
Proof.
  unfold inval, call. repeat (simpl; split_test); simpl;
    rewrite !discarded_app; simpl; rewrite ?app_nil_r; reflexivity.
Qed.

Lemma store_unlocked layer w :
  m_baseLayerUpdate w = true ->
  let w' := setBaseLayer_store layer false w in
  m_baseLayerUpdate w' = true /\ m_baseLayer w' = layer /\ m_currentBaseLayer w' = layer /\
  m_invalidateRegion w' = m_invalidateRegion w /\
  m_frameworkInval w' = m_frameworkInval w /\
  invalidated (events w') = invalidated (events w) /\
  discarded (events w')
  = discarded (events w)
    ++ (if is_null layer then [m_tiledPageA w; m_tiledPageB w] else []) /\
  m_displayRings w' = false.
Proof.
  intros Hg. cbv zeta. unfold setBaseLayer_store, call. rewrite orb_false_r. simpl.
  destruct layer as [l |]; simpl; destruct (m_baseLayer w) as [old |]; simpl;
    rewrite Hg; simpl; rewrite ?invalidated_app, ?discarded_app; simpl;
    rewrite ?app_nil_r, <- ?app_assoc; repeat split; exact Hg.
Qed.

Lemma store_frontPage layer first w :
  frontPage (setBaseLayer_store layer first w) = frontPage w.
Proof. unfold frontPage, setBaseLayer_store. frame. Qed.

Lemma store_invalidations layer first w :
  invalidations (events (setBaseLayer_store layer first w)) = invalidations (events w).
Proof.
  unfold setBaseLayer_store, call.
  destruct layer as [l |]; simpl; destruct first; simpl;
    destruct (m_baseLayer w) as [old |]; simpl;
    destruct (m_baseLayerUpdate w); simpl;
    rewrite ?invalidations_app; simpl; rewrite ?app_nil_r; reflexivity.
Qed.

Lemma invalRects_invalidations l : forall w,
  m_baseLayerUpdate w = true ->
  (forall q, In q l -> SkIRect.isEmpty q = false) ->
  invalidations (events (invalRects l w))
  = invalidations (events w) ++ map (fun q => (frontPage w, SkIRect.to_IntRect q)) l.
Proof.
  induction l as [| q l IH]; intros w Hg Hne.
  - simpl. symmetry. apply app_nil_r.
  - rewrite invalRects_cons, IH.
    + rewrite inval_invalidations, inval_frontPage, Hg.
      rewrite (to_IntRect_nonempty q) by (apply Hne; left; reflexivity).
      simpl. rewrite <- app_assoc. reflexivity.
    + rewrite inval_gate. exact Hg.
    + intros q' Hq'. apply Hne. right. exact Hq'.
Qed.

(** X8: on an unlocked gate a call of [setBaseLayer] without the flag of a
    first layout takes effect at once: the layer supplied is the latest
    layer and the layer in use, the rectangles of the region are invalidated
    on the spot (sent to the front page, and to no other page, and united
    into the base-content union) with nothing left pending, the rings are
    hidden, and the two pages discard their textures exactly when the layer
    is null. *)
Theorem setBaseLayer_unlocked layer region show w :
  m_baseLayerUpdate w = true ->
  let w' := setBaseLayer layer region show false w in
  let sent := map SkIRect.to_IntRect (rgn_rects region) in
  m_baseLayerUpdate w' = true /\
  m_baseLayer w' = layer /\
  m_currentBaseLayer w' = layer /\
  m_invalidateRegion w' = m_invalidateRegion w /\
  invalidated (events w') = invalidated (events w) ++ sent /\
  m_frameworkInval w' = fold_left IntRect.unite sent (m_frameworkInval w) /\
  discarded (events w')
  = discarded (events w)
    ++ (if is_null layer then [m_tiledPageA w; m_tiledPageB w] else []) /\
  m_displayRings w' = false /\
  invalidations (events w')
  = invalidations (events w) ++ map (fun r => (frontPage w, r)) sent.
Proof.
  intros Hu. destruct (store_unlocked layer w Hu) as (Hg & Hb & Hc & Hp & Hf & Hi & Hd & Hr).
  pose proof (store_frontPage layer false w) as Hfront.
  pose proof (store_invalidations layer false w) as Hlog.
  unfold setBaseLayer. cbv zeta. rewrite invalRegion_rects.
  set (w1 := setBaseLayer_store layer false w) in *.
  pose proof (invalRects_invalidations (rgn_rects region) w1 Hg (rgn_rects_nonempty region))
    as Hsent.
  destruct (invalRects_unlocked (rgn_rects region) w1 Hg (rgn_rects_nonempty region))
    as (Hf' & Hi' & Hp').
  change (m_baseLayerUpdate (call ?e ?v)) with (m_baseLayerUpdate v).
  change (m_baseLayer (call ?e ?v)) with (m_baseLayer v).
  change (m_currentBaseLayer (call ?e ?v)) with (m_currentBaseLayer v).
  change (m_invalidateRegion (call ?e ?v)) with (m_invalidateRegion v).
  change (m_frameworkInval (call ?e ?v)) with (m_frameworkInval v).
  change (m_displayRings (call ?e ?v)) with (m_displayRings v).
  rewrite (invalRects_keeps m_baseLayerUpdate) by apply inval_gate.
  rewrite (invalRects_keeps m_baseLayer) by apply inval_baseLayer.
  rewrite (invalRects_keeps m_currentBaseLayer) by apply inval_currentBaseLayer.
  rewrite (invalRects_keeps m_displayRings) by apply inval_displayRings.
  rewrite Hf', Hp', Hf, Hc, Hb, Hg, Hp, Hr.
  repeat (split; [reflexivity |]).
  split; [| split; [reflexivity | split; [| split; [reflexivity |]]]].
  - unfold call. simpl. rewrite invalidated_app, Hi', Hi. simpl. apply app_nil_r.
  - unfold call. simpl. rewrite discarded_app. simpl. rewrite app_nil_r.
    rewrite (invalRects_keeps (fun v => discarded (events v))) by apply inval_discarded.
    exact Hd.
  - unfold call. simpl. rewrite invalidations_app. simpl. rewrite app_nil_r.
    rewrite Hsent, Hlog, Hfront, map_map. reflexivity.
Qed.

(** *** Extras *)

Lemma setExtra_flag layer picture rect allowSame w :
  m_baseLayerUpdate (setExtra layer picture rect allowSame w) = m_baseLayerUpdate w.
Proof.
  unfold setExtra. destruct (m_baseLayerUpdate w) eqn:Hg; [| exact Hg].
  change (negb true) with false. cbv iota zeta.
  destruct (negb allowSame && _); [exact Hg |].
  change (m_baseLayerUpdate (set_m_displayRings ?d (set_m_lastInval ?r ?v)))
    with (m_baseLayerUpdate v).
  repeat (split_test; rewrite ?inval_gate); exact Hg.
Qed.

Lemma setExtra_lastInval layer picture rect allowSame w :
  m_baseLayerUpdate w = true ->
  m_lastInval (setExtra layer picture rect allowSame w) = rect.
Proof.
  intros Hg. unfold setExtra. rewrite Hg. change (negb true) with false. cbv iota zeta.
  destruct (negb allowSame && _) eqn:Hs; [| reflexivity].
  apply andb_true_iff in Hs. destruct Hs as [_ Hs]. apply IntRect_eqb_eq in Hs. exact Hs.
Qed.

(** X9: on an unlocked gate, whatever a call of [setExtra] with a rectangle
    did, a further call with the same rectangle and [allowSame] false only
    hands the picture to the layer: nothing is invalidated again. *)
Theorem setExtra_repeat layer picture layer' picture' rect allowSame w :
  m_baseLayerUpdate w = true ->
  setExtra layer' picture' rect false (setExtra layer picture rect allowSame w)
  = call (BaseLayer_setExtra layer' picture') (setExtra layer picture rect allowSame w).
Proof.
  intros Hg.
  pose proof (setExtra_lastInval layer picture rect allowSame w Hg) as Hl.
  pose proof (setExtra_flag layer picture rect allowSame w) as Hf. rewrite Hg in Hf.
  set (w1 := setExtra layer picture rect allowSame w) in *.
  unfold setExtra at 1. rewrite Hf. simpl. rewrite Hl.
  assert (IntRect.eqb rect rect = true) as -> by (apply IntRect_eqb_eq; reflexivity).
  reflexivity.
Qed.

(** *** Picture generations *)

Lemma generations_app l1 l2 : generations (l1 ++ l2) = generations l1 ++ generations l2.
Proof. unfold generations. apply flat_map_app. Qed.

Lemma inval_counter r w :
  m_currentPictureCounter (inval r w)
  = if m_baseLayerUpdate w then next_picture_counter (m_currentPictureCounter w)
    else m_currentPictureCounter w.
Proof. unfold inval. frame. Qed.

Lemma inval_generations r w :
  generations (events (inval r w))
  = generations (events w)
    ++ (if m_baseLayerUpdate w && negb (IntRect.isEmpty r)
        then [next_picture_counter (m_currentPictureCounter w)] else []).
Proof.
  unfold inval, call. destruct (m_baseLayerUpdate w); simpl.
  - destruct (IntRect.isEmpty r); simpl.
    + rewrite generations_app. reflexivity.
    + destruct (IntRect.isEmpty (m_frameworkInval w)); simpl;
        rewrite !generations_app; simpl; rewrite app_nil_r; reflexivity.
  - rewrite generations_app. reflexivity.
Qed.

Lemma invals_counter l : forall w,
  m_baseLayerUpdate w = true ->
  0 <= m_currentPictureCounter w < 2 ^ 32 ->
  m_currentPictureCounter (invals l w)
  = (m_currentPictureCounter w + Z.of_nat (length l)) mod 2 ^ 32.
Proof.
  induction l as [| r l IH]; intros w Hg Hc.
  - simpl. rewrite Z.add_0_r, Z.mod_small by exact Hc. reflexivity.
  - rewrite invals_cons, IH.
    + rewrite inval_counter, Hg. unfold next_picture_counter.
      rewrite Zplus_mod_idemp_l. f_equal. simpl length. lia.
    + rewrite inval_gate. exact Hg.
    + rewrite inval_counter, Hg. unfold next_picture_counter.
      apply Z.mod_pos_bound. reflexivity.
Qed.

(** X10: the picture generation is a counter of the [inval] calls made on an
    unlocked gate, modulo 2^32: every call advances it by one, also a call
    with an empty rectangle, which hands nothing to the page.  The
    generation a page receives with a rectangle is the one
    [paintBaseLayerContent] reports afterwards. *)
Theorem picture_generations w :
  m_baseLayerUpdate w = true ->
  0 <= m_currentPictureCounter w < 2 ^ 32 ->
  (forall l,
     m_currentPictureCounter (invals l w)
     = (m_currentPictureCounter w + Z.of_nat (length l)) mod 2 ^ 32) /\
  (forall r canvas, IntRect.isEmpty r = false ->
     generations (events (inval r w))
     = generations (events w) ++ [fst (paintBaseLayerContent canvas (inval r w))]) /\
  (forall r, IntRect.isEmpty r = true ->
     generations (events (inval r w)) = generations (events w) /\
     m_currentPictureCounter (inval r w) = (m_currentPictureCounter w + 1) mod 2 ^ 32).
Proof.
  intros Hg Hc. split; [| split].
  - intros l. apply invals_counter; assumption.
  - intros r canvas Hr. rewrite inval_generations, Hg, Hr.
    change (true && negb false) with true. cbv iota.
    unfold paintBaseLayerContent. cbv zeta. cbn [fst].
    destruct (m_currentBaseLayer (inval r w));
      [change (m_currentPictureCounter (call ?e ?v)) with (m_currentPictureCounter v) |];
      rewrite inval_counter, Hg; reflexivity.
  - intros r Hr. rewrite inval_generations, inval_counter, Hg, Hr. simpl.
    rewrite app_nil_r. split; reflexivity.
Qed.

(** *** The focus rings *)

Lemma quads_app l1 l2 : quads (l1 ++ l2) = quads l1 ++ quads l2.
Proof. unfold quads. apply flat_map_app. Qed.

Lemma drawFocusRing_quads r w :
  quads (events (drawFocusRing r w))
  = quads (events w) ++ (if accepted_quad r then [r] else []).
Proof.
  unfold drawFocusRing, accepted_quad, call.
  destruct (F32.leb (SkRect.fRight r) (SkRect.fLeft r)
            || F32.leb (SkRect.fBottom r) (SkRect.fTop r)); simpl;
    destruct (m_focusRingTexture w =? -1); simpl;
    rewrite ?quads_app; simpl; rewrite ?app_nil_r; reflexivity.
Qed.

Lemma drawFocusRings_quads {A : Type} (f : A -> SkRect) l : forall w,
  quads (events (fold_left (fun w a => drawFocusRing (f a) w) l w))
  = quads (events w) ++ List.filter accepted_quad (map f l).
Proof.
  induction l as [| a l IH]; intros w; simpl.
  - symmetry. apply app_nil_r.
  - rewrite IH, drawFocusRing_quads.
    destruct (accepted_quad (f a)); simpl; rewrite <- app_assoc; reflexivity.
Qed.

Lemma drawFocusRing_texture r w :
  m_focusRingTexture w <> -1 -> m_focusRingTexture (drawFocusRing r w) = m_focusRingTexture w.
Proof.
  intros Ht. apply Z.eqb_neq in Ht. unfold drawFocusRing. rewrite Ht. frame.
Qed.

Lemma drawFocusRings_texture {A : Type} (f : A -> SkRect) l : forall w,
  m_focusRingTexture w <> -1 ->
  m_focusRingTexture (fold_left (fun w a => drawFocusRing (f a) w) l w)
  = m_focusRingTexture w.
Proof.
  induction l as [| a l IH]; intros w Ht; simpl; [reflexivity |].
  rewrite IH; rewrite drawFocusRing_texture; auto.
Qed.

Lemma drawFocusRing_rings r w :
  (m_rings (drawFocusRing r w), m_ringsIsPressed (drawFocusRing r w),
   m_ringsIsButton (drawFocusRing r w))
  = (m_rings w, m_ringsIsPressed w, m_ringsIsButton w).
Proof. unfold drawFocusRing. frame. Qed.

(** X11: the quads [paintExtras] hands to the shader.  With the rings
    displayed and a region whose bounds are not empty, they are the
    rectangles of the region when the rings are pressed, followed by the
    quads of the border unless the rings are a pressed button, and of these
    only the quads [drawFocusRing] lets through (right beyond left, bottom
    beyond top); otherwise nothing is drawn.  Rings that are not displayed
    leave the state as it is, and a texture once created is kept. *)
Theorem paintExtras_quads w :
  let inner :=
    if m_ringsIsPressed w then map SkIRect_to_SkRect (rgn_rects (m_rings w)) else [] in
  let border :=
    if m_ringsIsButton w && m_ringsIsPressed w then []
    else ringsBorderQuads (m_rings w) (m_ringsIsPressed w) in
  let shown :=
    m_displayRings w && negb (rgn_isEmpty (m_rings w))
    && negb (SkIRect.isEmpty (rgn_getBounds (m_rings w))) in
  quads (events (paintExtras w))
  = quads (events w) ++ (if shown then List.filter accepted_quad (inner ++ border) else []) /\
  (m_displayRings w = false -> paintExtras w = w) /\
  (m_focusRingTexture w <> -1 ->
   m_focusRingTexture (paintExtras w) = m_focusRingTexture w).
Proof.
  cbv zeta. split; [| split].
  - unfold paintExtras.
    destruct (m_displayRings w && negb (rgn_isEmpty (m_rings w))); simpl;
      [| symmetry; apply app_nil_r].
    destruct (SkIRect.isEmpty (rgn_getBounds (m_rings w))); simpl;
      [symmetry; apply app_nil_r |].
    set (w1 := call _ w).
    assert (Hq : quads (events w1) = quads (events w))
      by (unfold w1, call; simpl; rewrite quads_app; simpl; apply app_nil_r).
    change (m_ringsIsPressed w1) with (m_ringsIsPressed w).
    change (m_rings w1) with (m_rings w).
    destruct (m_ringsIsPressed w) eqn:Hp.
    + set (w2 := fold_left _ (rgn_rects (m_rings w)) w1).
      assert (Hk : (m_rings w2, m_ringsIsPressed w2, m_ringsIsButton w2)
                   = (m_rings w, m_ringsIsPressed w, m_ringsIsButton w)).
      { unfold w2.
        rewrite (fold_left_keeps
                   (fun v => (m_rings v, m_ringsIsPressed v, m_ringsIsButton v))).
        - reflexivity.
        - intros s a. apply drawFocusRing_rings. }
      injection Hk as Hk1 Hk2 Hk3. rewrite Hk1, Hk2, Hk3, Hp.
      assert (Hq2 : quads (events w2)
                    = quads (events w)
                      ++ List.filter accepted_quad
                           (map SkIRect_to_SkRect (rgn_rects (m_rings w)))).
      { unfold w2. rewrite drawFocusRings_quads, Hq. reflexivity. }
      rewrite List.filter_app.
      destruct (m_ringsIsButton w); cbn [andb].
      * cbn [List.filter]. rewrite app_nil_r. exact Hq2.
      * rewrite (drawFocusRings_quads (fun r => r)), map_id, Hq2, app_assoc. reflexivity.
    + cbv iota.
      change (m_ringsIsButton w1) with (m_ringsIsButton w).
      change (m_ringsIsPressed w1) with (m_ringsIsPressed w).
      change (m_rings w1) with (m_rings w).
      rewrite Hp, andb_false_r. cbn [app].
      rewrite (drawFocusRings_quads (fun r => r)), map_id, Hq. reflexivity.
  - intros Hd. unfold paintExtras. rewrite Hd. reflexivity.
  - intros Ht. unfold paintExtras.
    destruct (m_displayRings w && negb (rgn_isEmpty (m_rings w))); [| reflexivity].
    destruct (SkIRect.isEmpty (rgn_getBounds (m_rings w))); [reflexivity |]. cbv zeta.
    set (w1 := call _ w).
    assert (Ht1 : m_focusRingTexture w1 <> -1) by exact Ht.
    change (m_focusRingTexture w) with (m_focusRingTexture w1).
    destruct (m_ringsIsPressed w1) eqn:Hp; cbv iota.
    + set (w2 := fold_left _ (rgn_rects (m_rings w1)) w1).
      assert (Ht2 : m_focusRingTexture w2 = m_focusRingTexture w1)
        by (apply drawFocusRings_texture; exact Ht1).
      destruct (m_ringsIsButton w2 && m_ringsIsPressed w2); [exact Ht2 |].
      rewrite (drawFocusRings_texture (fun r => r)); [exact Ht2 | congruence].
    + rewrite Hp, andb_false_r.
      apply (drawFocusRings_texture (fun r => r)). exact Ht1.
Qed.

(** *** The viewport, again *)

Lemma setViewport_changed viewport scale w :
  skrect_equal (m_viewport w) viewport
  && F32.eqb (zm_futureScale (m_zoomManager w)) scale = false ->
  m_viewport (setViewport viewport scale w) = viewport /\
  events (setViewport viewport scale w)
  = events w
    ++ [TilesManager_setMaxTextureCount
          (maxTextureCount_of
             (viewMaxTile (SkRect.width viewport) (F32.div scale (F32.of_int tileWidth)))
             (viewMaxTile (SkRect.height viewport) (F32.div scale (F32.of_int tileHeight))));
        TiledPage_updateBaseTileSize (m_tiledPageA w);
        TiledPage_updateBaseTileSize (m_tiledPageB w)] /\
  m_viewportTileBounds (setViewport viewport scale w)
  = SkIRect.mk
      (F32.floor_to_int
         (F32.mul (SkRect.fLeft viewport) (F32.div scale (F32.of_int tileWidth))))
      (F32.floor_to_int
         (F32.mul (SkRect.fTop viewport) (F32.div scale (F32.of_int tileHeight))))
      (F32.ceil_to_int
         (F32.mul (SkRect.fRight viewport) (F32.div scale (F32.of_int tileWidth))))
      (F32.ceil_to_int
         (F32.mul (SkRect.fBottom viewport) (F32.div scale (F32.of_int tileHeight)))).
Proof.
  intros Ht. unfold setViewport. rewrite Ht. unfold call. simpl.
  rewrite <- !app_assoc. repeat split; reflexivity.
Qed.

Lemma setViewport_zoomManager viewport scale w :
  m_zoomManager (setViewport viewport scale w) = m_zoomManager w.
Proof. unfold setViewport. frame. Qed.

(** X12: [setViewport] never tells the zoom manager, against whose future
    scale it compares.  So a call repeated with the same arguments does
    nothing when the scale is the future scale (and the viewport equals
    itself), while with any other scale every call, also a repeated one,
    stores the viewport, computes the same tile bounds and the same texture
    budget, and passes the budget to the tiles manager and tells page A and
    then page B to update their tile size. *)
Theorem setViewport_again viewport scale w :
  m_zoomManager (setViewport viewport scale w) = m_zoomManager w /\
  (skrect_equal viewport viewport = true ->
   F32.eqb (zm_futureScale (m_zoomManager w)) scale = true ->
   setViewport viewport scale (setViewport viewport scale w)
   = setViewport viewport scale w) /\
  (F32.eqb (zm_futureScale (m_zoomManager w)) scale = false ->
   let invTileContentWidth := F32.div scale (F32.of_int tileWidth) in
   let invTileContentHeight := F32.div scale (F32.of_int tileHeight) in
   let burst :=
     [TilesManager_setMaxTextureCount
        (maxTextureCount_of
           (viewMaxTile (SkRect.width viewport) invTileContentWidth)
           (viewMaxTile (SkRect.height viewport) invTileContentHeight));
      TiledPage_updateBaseTileSize (m_tiledPageA w);
      TiledPage_updateBaseTileSize (m_tiledPageB w)] in
   let bounds :=
     SkIRect.mk
       (F32.floor_to_int (F32.mul (SkRect.fLeft viewport) invTileContentWidth))
       (F32.floor_to_int (F32.mul (SkRect.fTop viewport) invTileContentHeight))
       (F32.ceil_to_int (F32.mul (SkRect.fRight viewport) invTileContentWidth))
       (F32.ceil_to_int (F32.mul (SkRect.fBottom viewport) invTileContentHeight)) in
   let once := setViewport viewport scale w in
   let twice := setViewport viewport scale once in
   events once = events w ++ burst /\
   events twice = events w ++ burst ++ burst /\
   m_viewport once = viewport /\
   m_viewport twice = viewport /\
   m_viewportTileBounds once = bounds /\
   m_viewportTileBounds twice = bounds).
Proof.
  split; [apply setViewport_zoomManager |]. split.
  - intros Hv Hs.
    destruct (skrect_equal (m_viewport w) viewport
              && F32.eqb (zm_futureScale (m_zoomManager w)) scale) eqn:Ht.
    + assert (Hw : setViewport viewport scale w = w)
        by (unfold setViewport; rewrite Ht; reflexivity).
      rewrite !Hw. reflexivity.
    + destruct (setViewport_changed viewport scale w Ht) as [Hvp _].
      pose proof (setViewport_zoomManager viewport scale w) as Hz.
      set (w1 := setViewport viewport scale w) in *.
      unfold setViewport at 1. rewrite Hvp, Hz, Hv, Hs. reflexivity.
  - intros Hs. cbv zeta.
    assert (Ht : forall v, m_zoomManager v = m_zoomManager w ->
                 skrect_equal (m_viewport v) viewport
                 && F32.eqb (zm_futureScale (m_zoomManager v)) scale = false)
      by (intros v ->; rewrite Hs; apply andb_false_r).
    destruct (setViewport_changed viewport scale w (Ht w eq_refl)) as (Hv & He & Hb).
    destruct (setViewport_changed viewport scale (setViewport viewport scale w)
                (Ht _ (setViewport_zoomManager viewport scale w))) as (Hv2 & He2 & Hb2).
    pose proof (pages_setViewport viewport scale w) as Hp. injection Hp as Hpa Hpb.
    split; [exact He |].
    split; [rewrite He2, He, Hpa, Hpb, <- app_assoc; reflexivity |].
    split; [exact Hv |]. split; [exact Hv2 |]. split; [exact Hb | exact Hb2].
Qed.

(** *** Locking and unlocking with nothing in between *)

(** X13: locking a settled, unlocked gate and unlocking it again changes
    nothing that can be observed: the layer in use and the latest layer are
    the same as before, no rectangle is flushed, no collaborator is called,
    and every reference count is what it was. *)
Theorem lock_unlock_round_trip w :
  m_baseLayerUpdate w = true ->
  gate_settled w ->
  let w' := unlockBaseLayerUpdate (lockBaseLayerUpdate w) in
  gate w' = gate w /\
  events w' = events w /\
  (forall p, count w' p = count w p) /\
  m_frameworkInval w' = m_frameworkInval w /\
  m_currentPictureCounter w' = m_currentPictureCounter w.
Proof.
  intros Hg Hs. destruct (Hs Hg) as [Hc Hr]. cbv zeta.
  unfold unlockBaseLayerUpdate, lockBaseLayerUpdate. simpl.
  rewrite invalRegion_rects. simpl. rewrite Hr, rgn_rects_empty. simpl.
  unfold gate. simpl. rewrite Hg, Hc, Hr.
  repeat (split; [reflexivity |]). split; [| split; reflexivity].
  intros p. unfold count. simpl. rewrite !count_add_lookup. lia.
Qed.

(** *** The composited root *)

Lemma prepare_root viewport scale w layer :
  m_currentBaseLayer w = Some layer ->
  match drawGL_prepare viewport scale w with
  | Ready layer' _ root _ =>
      layer' = layer /\
      root
      = (let source :=
           match m_baseLayer w with
           | Some latest => if layer_countChildren latest =? 0 then layer else latest
           | None => layer
           end in
         if 1 <=? layer_countChildren source then layer_getChild0 source else None)
  | Aborted _ => True
  | NoContent _ => False
  end.
Proof.
  intros Hc. unfold drawGL_prepare. cbv zeta.
  change (m_currentBaseLayer (call ?e (call ?e' ?v))) with (m_currentBaseLayer v).
  change (m_baseLayer (SkSafeRef ?a (call ?e (call ?e' ?v)))) with (m_baseLayer v).
  rewrite Hc.
  destruct (m_baseLayer w) as [latest |]; [destruct (layer_countChildren latest =? 0) |];
    destruct (drawGL_updateTiles scale _); try exact I; split; reflexivity.
Qed.

Lemma draw_root layer root rect viewport webViewRect titleBarHeight clip scale w :
  m_previouslyUsedRoot
    (snd (drawGL_draw layer root rect viewport webViewRect titleBarHeight clip scale w))
  = root.
Proof.
  unfold drawGL_draw.
  destruct (setupDrawing _ _ _ _ _ _ _) as [time w1].
  destruct (baseLayer_drawGL _ _ _ _ _ _ _) as [ret w2].
  reflexivity.
Qed.

(** X14: the composited root a frame is drawn with, and that is kept as
    the previously used root when [drawGL] returns, is the first child of
    the latest layer when that layer has children; else (the latest layer
    is null or has no child) the first child of the layer in use, or null
    when it has none either. *)
Theorem drawGL_composited_root rect viewport invalRect webViewRect titleBarHeight clip
    scale w layer ret out w' :
  m_currentBaseLayer w = Some layer ->
  drawGL rect viewport invalRect webViewRect titleBarHeight clip scale w
  = Returned ret out w' ->
  let source :=
    match m_baseLayer w with
    | Some latest => if layer_countChildren latest =? 0 then layer else latest
    | None => layer
    end in
  m_previouslyUsedRoot w'
  = (if 1 <=? layer_countChildren source then layer_getChild0 source else None).
Proof.
  intros Hc. pose proof (prepare_root viewport scale w layer Hc) as Hroot.
  unfold drawGL.
  destruct (drawGL_prepare viewport scale w) as [w1 | w1 | layer' base root w1].
  - destruct Hroot.
  - discriminate.
  - destruct Hroot as [-> Hroot].
    pose proof (draw_root layer root rect viewport webViewRect titleBarHeight clip scale w1)
      as Hdraw.
    destruct (drawGL_draw _ _ _ _ _ _ _ _ _) as [dirty w2]. simpl in Hdraw.
    destruct (report_keeps dirty rect invalRect w2) as [_ Hrep].
    destruct (drawGL_report dirty rect invalRect w2) as [[ret' out'] w3]. simpl in Hrep.
    intros [= <- <- <-]. cbv zeta.
    change (m_previouslyUsedRoot (SkSafeUnref ?a (SkSafeUnref ?b ?v)))
      with (m_previouslyUsedRoot v).
    injection Hrep as _ _ _ Hr. rewrite Hr, Hdraw. exact Hroot.
Qed.

(** *** The rings *)

Lemma to_SkIRect_pixels r px py :
  SkIRect.contains (IntRect_to_SkIRect r) px py <-> IntRect.contains r px py.
Proof. reflexivity. Qed.

Lemma unions_contain rest px py : forall g,
  rgn_contains (fold_left (fun g r => rgn_union g (IntRect_to_SkIRect r)) rest g) px py <->
  rgn_contains g px py \/ exists r, In r rest /\ IntRect.contains r px py.
Proof.
  induction rest as [| r rest IH]; intros g; simpl.
  - split; [intros Hg; left; exact Hg | intros [Hg | (r & [] & _)]; exact Hg].
  - rewrite IH. unfold rgn_contains at 1. rewrite rgn_rects_union, to_SkIRect_pixels.
    fold (rgn_contains g px py). split.
    + intros [[Hg | Hr] | (q & Hq & Hc)].
      * left. exact Hg.
      * right. exists r. split; [left; reflexivity | exact Hr].
      * right. exists q. split; [right; exact Hq | exact Hc].
    + intros [Hg | (q & [<- | Hq] & Hc)].
      * left. left. exact Hg.
      * left. right. exact Hc.
      * right. exists q. split; assumption.
Qed.

Lemma setBaseLayer_displayRings layer region show first w :
  m_displayRings (setBaseLayer layer region show first w) = false.
Proof.
  unfold setBaseLayer. cbv zeta. rewrite invalRegion_rects.
  change (m_displayRings (call ?e ?v)) with (m_displayRings v).
  rewrite (invalRects_keeps m_displayRings) by apply inval_displayRings.
  reflexivity.
Qed.

(** X15: [setRings] displays the rings and rebuilds their region: empty for
    no rectangle, else the region of the first rectangle with the pixels of
    every further rectangle added.  After [resetRings] or a call of
    [setBaseLayer], [paintExtras] does nothing. *)
Theorem setRings_region rings isPressed isButton w :
  let w' := setRings rings isPressed isButton w in
  m_displayRings w' = true /\
  m_ringsIsPressed w' = isPressed /\
  m_ringsIsButton w' = isButton /\
  events w' = events w /\
  match rings with
  | [] => m_rings w' = rgn_empty
  | r0 :: rest =>
      forall px py,
        rgn_contains (m_rings w') px py <->
        rgn_contains (rgn_setRect (IntRect_to_SkIRect r0)) px py
        \/ exists r, In r rest /\ IntRect.contains r px py
  end /\
  paintExtras (resetRings w') = resetRings w' /\
  forall layer region show first,
    paintExtras (setBaseLayer layer region show first w')
    = setBaseLayer layer region show first w'.
Proof.
  cbv zeta. unfold setRings.
  split; [destruct rings; reflexivity |].
  split; [destruct rings; reflexivity |].
  split; [destruct rings; reflexivity |].
  split; [destruct rings; reflexivity |].
  split; [destruct rings as [| r0 rest]; [reflexivity | intros px py; apply unions_contain] |].
  split; [reflexivity |].
  intros layer region show first. unfold paintExtras.
  rewrite setBaseLayer_displayRings. reflexivity.
Qed.

(** *** The start of a frame *)

(** X18: when [drawGL] gets as far as drawing (a layer is in use and the
    scale passes both checks), the layer union gathered before the frame has
    been dropped while the base-content union is kept; the prefetch
    expansion is [TILE_PREFETCH_DISTANCE] on an axis where the viewport
    extent times the prefetch ratio is below the extent of the content, else
    0; and only the profiler, the frame counter and the transfer queue were
    called: no warning about the scale was logged. *)
Theorem drawGL_prepare_ready viewport scale w layer base root w1 :
  drawGL_prepare viewport scale w = Ready layer base root w1 ->
  m_currentBaseLayer w = Some layer /\
  scale_out_of_range scale = false /\
  m_frameworkLayersInval w1 = IntRect.mk 0 0 0 0 /\
  m_frameworkInval w1 = m_frameworkInval w /\
  m_expandedTileBoundsX w1
  = (if F32.ltb
          (times_TILE_PREFETCH_RATIO
             (F32.sub (SkRect.fRight viewport) (SkRect.fLeft viewport)))
          (F32.of_int (layer_contentWidth layer))
     then TILE_PREFETCH_DISTANCE else 0) /\
  m_expandedTileBoundsY w1
  = (if F32.ltb
          (times_TILE_PREFETCH_RATIO
             (F32.sub (SkRect.fBottom viewport) (SkRect.fTop viewport)))
          (F32.of_int (layer_contentHeight layer))
     then TILE_PREFETCH_DISTANCE else 0) /\
  events w1
  = events w
    ++ [Profiler_nextFrame (SkRect.fLeft viewport) (SkRect.fTop viewport)
          (SkRect.fRight viewport) (SkRect.fBottom viewport) scale;
        TilesManager_incDrawGLCount;
        TransferQueue_updateDirtyBaseTiles].
Proof.
  unfold drawGL_prepare, drawGL_updateTiles, resetLayersDirtyArea, SkSafeRef, SkSafeUnref,
    baseContentWidth, baseContentHeight, call.
  simpl.
  destruct (m_currentBaseLayer w) as [l |] eqn:Hc; simpl; [| discriminate].
  destruct (m_baseLayer w) as [b |] eqn:Hb; simpl;
    [destruct (layer_countChildren b =? 0); simpl |];
    (destruct (scale_out_of_range scale); [discriminate |]);
    intros [= <- <- <- <-]; simpl; rewrite ?Hc, <- !app_assoc; repeat split.
Qed.

(** *** The range of the picture generation *)

Lemma inval_counter_range r w :
  0 <= m_currentPictureCounter w < 2 ^ 32 ->
  0 <= m_currentPictureCounter (inval r w) < 2 ^ 32.
Proof.
  intros Hc. rewrite inval_counter. destruct (m_baseLayerUpdate w); [| exact Hc].
  unfold next_picture_counter. apply Z.mod_pos_bound. reflexivity.
Qed.

Lemma invalRects_counter_range l : forall w,
  0 <= m_currentPictureCounter w < 2 ^ 32 ->
  0 <= m_currentPictureCounter (invalRects l w) < 2 ^ 32.
Proof.
  induction l as [| q l IH]; intros w Hc; [exact Hc |].
  rewrite invalRects_cons. apply IH, inval_counter_range, Hc.
Qed.

Lemma store_counter layer first w :
  m_currentPictureCounter (setBaseLayer_store layer first w) = m_currentPictureCounter w.
Proof. unfold setBaseLayer_store. frame. Qed.

Lemma prepare_counter viewport scale w :
  match drawGL_prepare viewport scale w with
  | NoContent w1 | Ready _ _ _ w1 => m_currentPictureCounter w1 = m_currentPictureCounter w
  | Aborted _ => True
  end.
Proof.
  unfold drawGL_prepare, drawGL_updateTiles, resetLayersDirtyArea, SkSafeRef, SkSafeUnref,
    call.
  simpl.
  destruct (m_currentBaseLayer w) as [layer |]; simpl; [| reflexivity].
  destruct (m_baseLayer w) as [b |]; simpl;
    [destruct (layer_countChildren b =? 0); simpl |];
    (destruct (scale_out_of_range scale); [exact I | reflexivity]).
Qed.

Lemma report_counter ret rect invalRect w :
  m_currentPictureCounter (snd (drawGL_report ret rect invalRect w))
  = m_currentPictureCounter w.
Proof. unfold drawGL_report. frame. Qed.

Lemma new_counter allocated zoom sh inv sw pressed button refs log :
  m_currentPictureCounter
    (GLWebViewState_new allocated zoom sh inv sw pressed button refs log) = 0.
Proof. reflexivity. Qed.

Section CounterRange.

Hypothesis draw_keeps_counter_range : forall layer time root rect viewport scale w,
  0 <= m_currentPictureCounter w < 2 ^ 32 ->
  0 <= m_currentPictureCounter
         (snd (baseLayer_drawGL layer time root rect viewport scale w)) < 2 ^ 32.

Lemma draw_counter_range layer root rect viewport webViewRect titleBarHeight clip scale w :
  0 <= m_currentPictureCounter w < 2 ^ 32 ->
  0 <= m_currentPictureCounter
         (snd (drawGL_draw layer root rect viewport webViewRect titleBarHeight clip scale w))
     < 2 ^ 32.
Proof.
  intros Hc. unfold drawGL_draw.
  destruct (setupDrawing _ _ _ _ _ _ _) as [time w1] eqn:Hsetup.
  destruct (baseLayer_drawGL _ _ _ _ _ _ _) as [ret w2] eqn:Hdraw.
  simpl snd.
  change (m_currentPictureCounter
            (set_m_previouslyUsedRoot ?r (SkSafeUnref ?a (SkSafeRef ?b (call ?e ?v)))))
    with (m_currentPictureCounter v).
  rewrite (paintExtras_keeps m_currentPictureCounter)
    by (reflexivity || (intros; unfold drawFocusRing; frame)).
  change w2 with (snd (ret, w2)). rewrite <- Hdraw.
  apply draw_keeps_counter_range.
  change w1 with (snd (time, w1)). rewrite <- Hsetup.
  rewrite (setupDrawing_keeps m_currentPictureCounter)
    by (reflexivity || (intros; unfold setViewport; frame)).
  split_test; exact Hc.
Qed.

(** X19: in every state reachable from the constructor the picture
    generation is a 32-bit unsigned value, provided the draw delegated to
    the base layer keeps it one. *)
Theorem reachable_counter_range w :
  reachable w -> 0 <= m_currentPictureCounter w < 2 ^ 32.
Proof.
  induction 1 as [| w m w' _ IH Hp].
  - rewrite new_counter. split; [reflexivity | reflexivity].
  - destruct m; simpl in Hp; try (injection Hp as <-); try exact IH.
    + unfold setBaseLayer. cbv zeta. rewrite invalRegion_rects.
      change (m_currentPictureCounter (call ?e ?v)) with (m_currentPictureCounter v).
      apply invalRects_counter_range. rewrite store_counter. exact IH.
    + unfold setRings. destruct rings; exact IH.
    + unfold unlockBaseLayerUpdate. destruct (m_baseLayerUpdate w); [exact IH |].
      cbv zeta. rewrite invalRegion_rects.
      change (m_currentPictureCounter (set_m_invalidateRegion ?g ?v))
        with (m_currentPictureCounter v).
      apply invalRects_counter_range. exact IH.
    + unfold setExtra. destruct (negb (m_baseLayerUpdate w)); [exact IH |]. cbv zeta.
      destruct (negb allowSame && _); [exact IH |].
      change (m_currentPictureCounter (set_m_displayRings ?d (set_m_lastInval ?r ?v)))
        with (m_currentPictureCounter v).
      repeat split_test; repeat apply inval_counter_range; exact IH.
    + apply inval_counter_range, IH.
    + unfold paintBaseLayerContent. destruct (m_currentBaseLayer w); exact IH.
    + unfold setViewport. split_test; exact IH.
    + unfold addDirtyArea. repeat split_test; exact IH.
    + unfold drawGL in Hp.
      pose proof (prepare_counter viewport scale w) as Hprep.
      destruct (drawGL_prepare viewport scale w) as [w1 | w1 | layer base root w1].
      * injection Hp as <-. rewrite Hprep. exact IH.
      * discriminate.
      * rewrite <- Hprep in IH.
        pose proof (draw_counter_range layer root rect viewport webViewRect titleBarHeight
                      clip scale w1 IH) as Hdraw.
        destruct (drawGL_draw _ _ _ _ _ _ _ _ _) as [ret w2]. simpl in Hdraw.
        pose proof (report_counter ret rect invalRect w2) as Hrep.
        destruct (drawGL_report ret rect invalRect w2) as [[ret' out] w3]. simpl in Hrep.
        injection Hp as <-.
        change (m_currentPictureCounter (SkSafeUnref ?a (SkSafeUnref ?b ?v)))
          with (m_currentPictureCounter v).
        rewrite Hrep. exact Hdraw.
Qed.

End CounterRange.

End Properties.

(* ===================================================================== *)
(** ** The properties on concrete inputs *)
(* ===================================================================== *)

Section Concrete.

#[local] Existing Instance Double.foreign.
#[local] Existing Instance Double.busy.

(** The bounds of the scale check, float by float: 50 is out of range, 1,
    10 and the float nearest to 0.1 are in range, the floats next to these
    two bounds on the outside are out of range, and a NaN is in range. *)
Example scale_50_out_of_range : scale_out_of_range (F32.of_int 50) = true.
Proof. reflexivity. Qed.

Example scale_1_in_range : scale_out_of_range (F32.of_int 1) = false.
Proof. reflexivity. Qed.

Example scale_10_in_range : scale_out_of_range (F32.of_int 10) = false.
Proof. reflexivity. Qed.

Example scale_above_10_out_of_range :
  scale_out_of_range (S754_finite false 10485761 (-20)) = true.
Proof. reflexivity. Qed.

Example scale_tenth_in_range : scale_out_of_range (S754_finite false 13421773 (-27)) = false.
Proof. reflexivity. Qed.

Example scale_below_tenth_out_of_range :
  scale_out_of_range (S754_finite false 13421772 (-27)) = true.
Proof. reflexivity. Qed.

Example scale_nan_in_range : scale_out_of_range S754_nan = false.
Proof. reflexivity. Qed.

Lemma pages_invariant_witness :
  reachable (Double.fresh_world false) /\
  frontPage (Double.fresh_world false) <> backPage (Double.fresh_world false).
Proof.
  split.
  - apply reachable_new.
  - apply (pages_invariant (Double.fresh_world false)). apply reachable_new.
Defined.

Lemma setViewport_same_is_noop_witness :
  skrect_equal (m_viewport (Double.fresh_world false)) SkRect.empty = true /\
  F32.eqb (zm_futureScale (m_zoomManager (Double.fresh_world false))) Double.one = true /\
  setViewport SkRect.empty Double.one (Double.fresh_world false) = Double.fresh_world false.
Proof.
  split; [reflexivity |]. split; [reflexivity |].
  apply (setViewport_same_is_noop (Double.fresh_world false) SkRect.empty Double.one);
    reflexivity.
Defined.

Lemma setViewport_budget_witness :
  skrect_equal (m_viewport (Double.fresh_world false)) (Double.square 100)
  && F32.eqb (zm_futureScale (m_zoomManager (Double.fresh_world false))) Double.one = false /\
  events (setViewport (Double.square 100) Double.one (Double.fresh_world false))
  = [TilesManager_setMaxTextureCount 32; TiledPage_updateBaseTileSize 1;
     TiledPage_updateBaseTileSize 2].
Proof.
  split; [reflexivity |].
  etransitivity.
  - apply (proj2 (setViewport_budget (Double.fresh_world false) (Double.square 100)
                    Double.one eq_refl)).
    reflexivity.
  - reflexivity.
Defined.

Lemma base_union_merge_witness :
  m_baseLayerUpdate (Double.fresh_world false) = true /\
  IntRect.isEmpty (m_frameworkInval (Double.fresh_world false)) = true /\
  m_frameworkInval
    (inval (IntRect.mk 30 5 5 5) (inval (IntRect.mk 10 10 10 10) (Double.fresh_world false)))
  = m_frameworkInval
      (inval (IntRect.mk 10 10 10 10) (inval (IntRect.mk 30 5 5 5) (Double.fresh_world false))).
Proof.
  split; [reflexivity |]. split; [reflexivity |].
  apply (base_union_merge (Double.fresh_world false) (IntRect.mk 10 10 10 10)
           (IntRect.mk 30 5 5 5)); reflexivity.
Defined.

(** C8 as stated fails on an empty rectangle: merged into an empty union
    on an unlocked gate, (5,5,0,0) is not adopted; and on a locked gate no
    rectangle reaches the union, which stays empty. *)
Lemma empty_rect_is_not_adopted :
  m_baseLayerUpdate (Double.fresh_world false) = true /\
  IntRect.isEmpty (m_frameworkInval (Double.fresh_world false)) = true /\
  m_frameworkInval (inval (IntRect.mk 5 5 0 0) (Double.fresh_world false))
  <> IntRect.mk 5 5 0 0 /\
  IntRect.isEmpty (m_frameworkInval Double.locked) = true /\
  m_frameworkInval (inval (IntRect.mk 10 10 10 10) Double.locked) <> IntRect.mk 10 10 10 10.
Proof.
  split; [reflexivity |]. split; [reflexivity |].
  split; [vm_compute; discriminate |].
  split; [reflexivity |]. vm_compute. discriminate.
Qed.

Lemma locked_gate_defers_witness :
  m_baseLayerUpdate Double.locked = false /\
  m_currentBaseLayer (setBaseLayers Double.two_supplies Double.locked) = Some 10%positive /\
  m_currentBaseLayer
    (unlockBaseLayerUpdate (setBaseLayers Double.two_supplies Double.locked))
  = Some 12%positive.
Proof.
  split; [reflexivity |].
  destruct (locked_gate_defers Double.locked Double.two_supplies eq_refl)
    as ((_ & Hcur & _) & (_ & Hnew & _) & _).
  split.
  - etransitivity; [exact Hcur | reflexivity].
  - etransitivity; [exact Hnew | reflexivity].
Defined.

(** C2 as stated fails on a call with the flag of a first layout: made on
    a locked gate, it replaces the current layer. *)
Lemma first_layout_replaces_current_while_locked :
  m_baseLayerUpdate Double.locked = false /\
  m_currentBaseLayer Double.locked = Some 10%positive /\
  m_currentBaseLayer (setBaseLayer (Some 11%positive) [] false true Double.locked)
  = Some 11%positive /\
  m_currentBaseLayer (setBaseLayer (Some 11%positive) [] false true Double.locked)
  <> m_currentBaseLayer Double.locked.
Proof.
  split; [reflexivity |]. split; [reflexivity |]. split; [reflexivity |].
  vm_compute. discriminate.
Qed.

(** C3 as stated fails: after a call with the flag of a first layout the
    gate is not locked, whether it was locked or unlocked before. *)
Lemma first_layout_leaves_gate_unlocked :
  m_baseLayerUpdate Double.locked = false /\
  m_baseLayerUpdate (setBaseLayer (Some 11%positive) [] false true Double.locked) <> false /\
  m_baseLayerUpdate (setBaseLayer (Some 11%positive) [] false true (Double.loaded false))
  <> false.
Proof.
  split; [reflexivity |]. split; vm_compute; discriminate.
Qed.

(** C4 as stated fails on a viewport of width zero: at scale 1 the count
    across is 1, not 0, and the budget is (1 + 2) * (2 + 2) * 2; at scale
    1024 the count across is -3 and the budget passed is negative. *)
Lemma zero_width_is_not_clamped :
  F32.eqb (SkRect.width Double.zero_wide) (F32.of_int 0) = true /\
  viewMaxTile (SkRect.width Double.zero_wide) (F32.div (F32.of_int 1) (F32.of_int tileWidth))
  = 1 /\
  events (setViewport Double.zero_wide (F32.of_int 1) (Double.fresh_world false))
  = [TilesManager_setMaxTextureCount 24; TiledPage_updateBaseTileSize 1;
     TiledPage_updateBaseTileSize 2] /\
  viewMaxTile (SkRect.width Double.zero_wide)
    (F32.div (F32.of_int 1024) (F32.of_int tileWidth))
  = -3 /\
  events (setViewport Double.zero_wide (F32.of_int 1024) (Double.fresh_world false))
  = [TilesManager_setMaxTextureCount (-798); TiledPage_updateBaseTileSize 1;
     TiledPage_updateBaseTileSize 2].
Proof. repeat split; vm_compute; reflexivity. Qed.

(** Beyond the range of [int]: a viewport of 100 by 100 at scale 10^9 has
    386718753 tiles across and as many down; the product
    299102790937500050 does not fit in an [int] and the budget passed is
    its low 32 bits.  The cast of a NaN leaves [INT_MIN]. *)
Example budget_beyond_int :
  viewMaxTile (SkRect.width (Double.square 100))
    (F32.div (F32.of_int 1000000000) (F32.of_int tileWidth))
  = 386718753 /\
  (386718753 + 2 * TILE_PREFETCH_DISTANCE) * (386718753 + 2 * TILE_PREFETCH_DISTANCE) * 2
  = 299102790937500050 /\
  Int32.fits 299102790937500050 = false /\
  events (setViewport (Double.square 100) (F32.of_int 1000000000) (Double.fresh_world false))
  = [TilesManager_setMaxTextureCount 1428707730; TiledPage_updateBaseTileSize 1;
     TiledPage_updateBaseTileSize 2] /\
  F32.ceil_to_int S754_nan = Int32.min_int.
Proof. repeat split; vm_compute; reflexivity. Qed.

Lemma setExtra_gate_and_diff_witness :
  m_baseLayerUpdate Double.locked = false /\
  setExtra 20%positive 21%positive (IntRect.mk 1 1 4 4) false Double.locked = Double.locked.
Proof.
  split; [reflexivity |].
  apply (setExtra_gate_and_diff Double.locked 20%positive 21%positive (IntRect.mk 1 1 4 4)
           false).
  reflexivity.
Defined.

Lemma drawGL_scale_checks_witness :
  m_currentBaseLayer (Double.loaded false) = Some 10%positive /\
  scale_out_of_range (F32.of_int 50) = true /\
  exists wc,
    drawGL Double.screen_rect (Double.square 100) (IntRect.mk 0 0 0 0) Double.screen_rect 0
      Double.screen_rect (F32.of_int 50) (Double.loaded false)
    = Crashed wc.
Proof.
  split; [reflexivity |]. split; [reflexivity |].
  destruct (drawGL_scale_checks Double.screen_rect (Double.square 100) (IntRect.mk 0 0 0 0)
              Double.screen_rect 0 Double.screen_rect (F32.of_int 50) (Double.loaded false)
              10%positive eq_refl) as [Hout _].
  destruct (Hout eq_refl) as (wc & Hcrash & _).
  exists wc. exact Hcrash.
Defined.



(** *** The further properties on the stand-ins *)

Lemma perform_keeps_foreign_refs_witness :
  exists w',
    perform
      (Call_drawGL Double.screen_rect (Double.square 100) (IntRect.mk 7 7 7 7)
         Double.screen_rect 0 Double.screen_rect (F32.of_int 1))
      (Double.dirtied false)
    = Some w' /\
    foreign_refs w' 10%positive = foreign_refs (Double.dirtied false) 10%positive.
Proof.
  assert (Hs : m_baseLayerUpdate
                 <$> perform
                       (Call_drawGL Double.screen_rect (Double.square 100)
                          (IntRect.mk 7 7 7 7) Double.screen_rect 0 Double.screen_rect
                          (F32.of_int 1))
                       (Double.dirtied false)
               = Some true)
    by (vm_compute; reflexivity).
  destruct (perform
              (Call_drawGL Double.screen_rect (Double.square 100) (IntRect.mk 7 7 7 7)
                 Double.screen_rect 0 Double.screen_rect (F32.of_int 1))
              (Double.dirtied false)) as [w' |] eqn:E in Hs |- *; [| discriminate Hs].
  exists w'. split; [reflexivity |].
  exact (@perform_keeps_foreign_refs Double.foreign Double.busy
           (fun _ _ _ _ _ _ _ _ => eq_refl) _ _ w' E 10%positive).
Defined.

Lemma reachable_gate_settled_witness :
  reachable (Double.loaded false) /\ gate_settled (Double.loaded false).
Proof.
  assert (Hr : reachable (Double.loaded false)).
  { apply (reachable_step (Double.fresh_world false)
             (Call_setBaseLayer (Some 10%positive) (Double.region_of []) false false));
      [apply reachable_new | reflexivity]. }
  split; [exact Hr |].
  exact (reachable_gate_settled (fun _ _ _ _ _ _ _ Hs => Hs) (Double.loaded false) Hr).
Defined.

Lemma drawGL_without_content_witness :
  m_currentBaseLayer (Double.fresh_world false) = None /\
  exists w',
    drawGL Double.screen_rect (Double.square 100) (IntRect.mk 7 7 7 7) Double.screen_rect 0
      Double.screen_rect (F32.of_int 50) (Double.fresh_world false)
    = Returned false (IntRect.mk 7 7 7 7) w'.
Proof.
  split; [reflexivity |].
  destruct (drawGL_without_content Double.screen_rect (Double.square 100)
              (IntRect.mk 7 7 7 7) Double.screen_rect 0 Double.screen_rect (F32.of_int 50)
              (Double.fresh_world false) eq_refl) as (w' & Hd & _).
  exists w'. exact Hd.
Defined.

Lemma drawGL_written_rectangle_witness :
  exists ret out w',
    drawGL Double.screen_rect (Double.square 100) (IntRect.mk 7 7 7 7) Double.screen_rect 0
      Double.screen_rect (F32.of_int 1) (Double.dirtied false)
    = Returned ret out w' /\
    (ret = true ->
     (out = IntRect.mk 0 0 0 0 \/ IntRect.intersects out Double.screen_rect = true) /\
     tm_invertedScreenSwitch w' = false).
Proof.
  assert (Hs : fst <$> reported
                 (drawGL Double.screen_rect (Double.square 100) (IntRect.mk 7 7 7 7)
                    Double.screen_rect 0 Double.screen_rect (F32.of_int 1)
                    (Double.dirtied false))
               = Some true)
    by (vm_compute; reflexivity).
  destruct (drawGL Double.screen_rect (Double.square 100) (IntRect.mk 7 7 7 7)
              Double.screen_rect 0 Double.screen_rect (F32.of_int 1) (Double.dirtied false))
    as [ret out w' | wc] eqn:E in Hs |- *.
  - exists ret, out, w'. split; [reflexivity |].
    exact (proj2 (drawGL_written_rectangle _ _ _ _ _ _ _ _ ret out w' E)).
  - discriminate Hs.
Defined.

Lemma invals_union_witness :
  m_baseLayerUpdate (Double.loaded false) = true /\
  IntRect.encloses
    (m_frameworkInval
       (invals [IntRect.mk 0 0 5 5; IntRect.mk 0 0 0 0; IntRect.mk 10 10 10 10]
          (Double.loaded false)))
    (IntRect.mk 10 10 10 10).
Proof.
  split; [reflexivity |].
  apply (invals_union [IntRect.mk 0 0 5 5; IntRect.mk 0 0 0 0; IntRect.mk 10 10 10 10]
           (Double.loaded false) eq_refl).
  right. right. left. reflexivity.
Defined.

Lemma setBaseLayer_unlocked_witness :
  m_baseLayerUpdate (Double.fresh_world false) = true /\
  m_currentBaseLayer
    (setBaseLayer (Some 10%positive) (Double.region_of [SkIRect.mk 0 0 5 5]) false false
       (Double.fresh_world false))
  = Some 10%positive.
Proof.
  split; [reflexivity |].
  apply (setBaseLayer_unlocked (Some 10%positive) (Double.region_of [SkIRect.mk 0 0 5 5])
           false (Double.fresh_world false) eq_refl).
Defined.

Lemma setExtra_repeat_witness :
  m_baseLayerUpdate (Double.loaded false) = true /\
  setExtra 10%positive 21%positive (IntRect.mk 1 1 4 4) false
    (setExtra 10%positive 20%positive (IntRect.mk 1 1 4 4) true (Double.loaded false))
  = call (BaseLayer_setExtra 10%positive 21%positive)
      (setExtra 10%positive 20%positive (IntRect.mk 1 1 4 4) true (Double.loaded false)).
Proof.
  split; [reflexivity |].
  apply (setExtra_repeat 10%positive 20%positive 10%positive 21%positive (IntRect.mk 1 1 4 4)
           true (Double.loaded false)).
  reflexivity.
Defined.

Lemma picture_generations_witness :
  m_baseLayerUpdate (Double.loaded false) = true /\
  0 <= m_currentPictureCounter (Double.loaded false) < 2 ^ 32 /\
  m_currentPictureCounter
    (invals [IntRect.mk 0 0 5 5; IntRect.mk 0 0 0 0] (Double.loaded false))
  = (m_currentPictureCounter (Double.loaded false)
     + Z.of_nat (length [IntRect.mk 0 0 5 5; IntRect.mk 0 0 0 0])) mod 2 ^ 32.
Proof.
  assert (Hc : 0 <= m_currentPictureCounter (Double.loaded false) < 2 ^ 32)
    by (vm_compute; split; [discriminate | reflexivity]).
  split; [reflexivity |]. split; [exact Hc |].
  exact (proj1 (picture_generations (Double.loaded false) eq_refl Hc)
           [IntRect.mk 0 0 5 5; IntRect.mk 0 0 0 0]).
Defined.

Lemma lock_unlock_round_trip_witness :
  m_baseLayerUpdate (Double.loaded false) = true /\
  gate_settled (Double.loaded false) /\
  events (unlockBaseLayerUpdate (lockBaseLayerUpdate (Double.loaded false)))
  = events (Double.loaded false).
Proof.
  assert (Hs : gate_settled (Double.loaded false)) by (intros _; split; reflexivity).
  split; [reflexivity |]. split; [exact Hs |].
  apply (lock_unlock_round_trip (Double.loaded false) eq_refl Hs).
Defined.

Lemma drawGL_composited_root_witness :
  m_currentBaseLayer (Double.dirtied false) = Some 10%positive /\
  exists ret out w',
    drawGL Double.screen_rect (Double.square 100) (IntRect.mk 7 7 7 7) Double.screen_rect 0
      Double.screen_rect (F32.of_int 1) (Double.dirtied false)
    = Returned ret out w' /\
    m_previouslyUsedRoot w' = None.
Proof.
  split; [reflexivity |].
  assert (Hs : fst <$> reported
                 (drawGL Double.screen_rect (Double.square 100) (IntRect.mk 7 7 7 7)
                    Double.screen_rect 0 Double.screen_rect (F32.of_int 1)
                    (Double.dirtied false))
               = Some true)
    by (vm_compute; reflexivity).
  destruct (drawGL Double.screen_rect (Double.square 100) (IntRect.mk 7 7 7 7)
              Double.screen_rect 0 Double.screen_rect (F32.of_int 1) (Double.dirtied false))
    as [ret out w' | wc] eqn:E in Hs |- *.
  - exists ret, out, w'. split; [reflexivity |].
    exact (drawGL_composited_root Double.screen_rect (Double.square 100) (IntRect.mk 7 7 7 7)
             Double.screen_rect 0 Double.screen_rect (F32.of_int 1) (Double.dirtied false)
             10%positive ret out w' eq_refl E).
  - discriminate Hs.
Defined.

Lemma scale_out_of_range_value_witness :
  F32.valid 8388608 (-23) = true /\
  (scale_out_of_range (S754_finite false 8388608 (-23)) = true
   <-> 10 * F32.units (S754_finite false 8388608 (-23)) < 2 ^ 149
       \/ 10 * 2 ^ 149 < F32.units (S754_finite false 8388608 (-23))).
Proof.
  split; [reflexivity |].
  apply scale_out_of_range_value. reflexivity.
Defined.

Lemma drawGL_prepare_ready_witness :
  exists layer base root w1,
    drawGL_prepare (Double.square 100) (F32.of_int 1) (Double.dirtied false)
    = Ready layer base root w1 /\
    m_frameworkLayersInval w1 = IntRect.mk 0 0 0 0.
Proof.
  destruct (prepare_ready (Double.square 100) (F32.of_int 1) (Double.dirtied false)
              10%positive eq_refl eq_refl) as (base & root & w1 & E).
  exists 10%positive, base, root, w1. split; [exact E |].
  exact (proj1 (proj2 (proj2 (drawGL_prepare_ready _ _ _ 10%positive base root w1 E)))).
Defined.

Lemma reachable_counter_range_witness :
  reachable (Double.loaded false) /\
  0 <= m_currentPictureCounter (Double.loaded false) < 2 ^ 32.
Proof.
  assert (Hr : reachable (Double.loaded false)).
  { apply (reachable_step (Double.fresh_world false)
             (Call_setBaseLayer (Some 10%positive) (Double.region_of []) false false));
      [apply reachable_new | reflexivity]. }
  split; [exact Hr |].
  exact (reachable_counter_range (fun _ _ _ _ _ _ _ Hc => Hc) (Double.loaded false) Hr).
Defined.

End Concrete.
